(** * STX default panic handler: [stx::panic_default]

    A shallow embedding of [include/stx/panic/handlers/default/default.h].
    The handler is a straight-line sequence of calls on the C stream
    [stderr] bracketed by a static [std::mutex]; it is embedded in a small
    writer monad that records the calls in program order, and the calls are
    given a semantics on an explicit process state (mutex owner, stream
    buffer, delivered bytes), for one thread and for interleaved threads. *)

From Stdlib Require Import ZArith NArith List Lia Bool String Ascii Strings.Byte.
From Stdlib Require Import DecimalString Permutation.
From Stdlib Require DecimalFacts DecimalPos DecimalZ.
Import ListNotations.

Local Open Scope Z_scope.

(** * Text *)

(** A [char] sequence: [std::string_view] contents, the characters of a
    NUL-terminated [const char*] before its terminator, stream contents. *)
Definition text := list byte.

(** A C string literal. *)
Definition lit (s : string) : text := list_byte_of_string s.



(** * Formatted output *)

Module Fmt.

(** [int] and [uint_least32_t] are 32 bits wide. *)
Definition INT_MAX : Z := 2147483647.
Definition UINT32_MAX : Z := 4294967295.

(** The value [va_arg(ap, int)] reads when the argument passed was the
    unsigned 32-bit [x]: the same 32 bits in two's complement. *)
Definition as_int (x : Z) : Z :=
  (x + 2147483648) mod 4294967296 - 2147483648.

(** Decimal digits of a natural number, most significant first. *)
Definition decimal (n : N) : text :=
  lit (NilZero.string_of_uint (N.to_uint n)).

(** Decimal digits of an integer, with a leading minus sign when negative. *)
Definition signed_decimal (z : Z) : text :=
  lit (NilZero.string_of_int (Z.to_int z)).

(** Conversion ["%d"] applied to a 32-bit argument. *)
Definition pct_d (x : Z) : text := signed_decimal (as_int x).

(** Conversion ["%zu"] applied to a [size_t]. *)
Definition pct_zu (x : N) : text := decimal x.

(** [std::snprintf(buf, size, ...)] followed by reading [buf] back as a C
    string: at most [size - 1] characters of the formatted text are
    stored before the terminator. *)
Definition snprintf (size : nat) (formatted : text) : text :=
  firstn (size - 1) formatted.

End Fmt.

(** * Data model *)

(** Modelled from the spec: [SourceLocation] is declared outside this
    header; its accessors [file_name()], [function_name()] return C strings
    and [line()], [column()] unsigned integers ([uint_least32_t], as in
    [std::source_location]) with [0] meaning unknown. *)
Record SourceLocation := {
  file_name : text;
  function_name : text;
  line : Z;
  column : Z
}.

(** The fields [line], [column] are in range of their unsigned type. *)
Definition valid_location (l : SourceLocation) : Prop :=
  0 <= line l <= Fmt.UINT32_MAX /\ 0 <= column l <= Fmt.UINT32_MAX.

(** Modelled from the spec: [ReportPayload] is declared outside this header;
    [data()] is a possibly empty, read-only byte view. *)
Record ReportPayload := { data : text }.

(** Modelled from the spec: [backtrace::Symbol] and [backtrace::Frame] are
    declared in stx/backtrace.h; each field of a frame is independently
    optional. *)
Record Symbol := { raw : text }.

Record Frame := {
  ip : option Z;
  sp : option Z;
  symbol : option Symbol
}.

(** * Calls on the process state *)

Definition thread_id := nat.

(** The calls through which the handler touches shared state, and
    [std::abort], the call by which a handler would end the process. *)
Inductive call :=
| MutexLock                (* stderr_lock.lock() *)
| MutexUnlock              (* stderr_lock.unlock() *)
| Fputc (c : byte)         (* std::fputc(c, stderr) *)
| Fputs (s : text)         (* std::fputs(s, stderr) *)
| Fprintf (formatted : text) (* std::fprintf(stderr, ...) *)
| Fflush                   (* std::fflush(stderr) *)
| Abort.                   (* std::abort() *)

(** The characters a call appends to the stream. *)
Definition written (c : call) : text :=
  match c with
  | Fputc b => [b]
  | Fputs s => s
  | Fprintf s => s
  | _ => []
  end.

Definition is_write (c : call) : bool :=
  match c with
  | Fputc _ | Fputs _ | Fprintf _ => true
  | _ => false
  end.

Definition is_flush (c : call) : bool :=
  match c with Fflush => true | _ => false end.

Definition is_lock (c : call) : bool :=
  match c with MutexLock => true | _ => false end.

Definition is_unlock (c : call) : bool :=
  match c with MutexUnlock => true | _ => false end.

Definition is_abort (c : call) : bool :=
  match c with Abort => true | _ => false end.

(** All characters appended by a sequence of calls, in order. *)
Definition written_all (cs : list call) : text := flat_map written cs.

(** ** The writer monad: a result and the calls made, in program order *)

Definition io (A : Type) : Type := A * list call.

Definition ret {A} (a : A) : io A := (a, []).

Definition bind {A B} (m : io A) (k : A -> io B) : io B :=
  let '(a, c1) := m in
  let '(b, c2) := k a in
  (b, c1 ++ c2).

Declare Scope io_scope.
Delimit Scope io_scope with io.
Notation "x <- m ;; k" := (bind m (fun x => k))
  (at level 61, m at next level, right associativity) : io_scope.
Notation "m ;; k" := (bind m (fun _ => k))
  (at level 61, right associativity) : io_scope.
Local Open Scope io_scope.

Definition calls {A} (m : io A) : list call := snd m.
Definition result {A} (m : io A) : A := fst m.

Definition emit (c : call) : io unit := (tt, [c]).

Definition fputc (c : byte) : io unit := emit (Fputc c).
Definition fputs (s : text) : io unit := emit (Fputs s).
Definition fprintf (formatted : text) : io unit := emit (Fprintf formatted).
Definition fflush : io unit := emit Fflush.
Definition lock : io unit := emit MutexLock.
Definition unlock : io unit := emit MutexUnlock.

(** [for (char c : s) body(c);] *)
Fixpoint for_each {A} (s : list A) (body : A -> io unit) : io unit :=
  match s with
  | [] => ret tt
  | c :: s' => body c ;; for_each s' body
  end.

(** [if (cond) { body }] *)
Definition when (cond : bool) (body : io unit) : io unit :=
  if cond then body else ret tt.

(** [Option<T>::match(some_fn, none_fn)] *)
Definition option_match {A B} (o : option A) (some_fn : A -> B) (none_fn : B) : B :=
  match o with
  | Some a => some_fn a
  | None => none_fn
  end.

Definition empty (s : text) : bool :=
  match s with [] => true | _ => false end.

(** * The backtrace capturer *)

(** What the platform's stack walk finds for the calling thread: nothing
    (the facility is absent, and a count of zero or a negative sentinel is
    reported), or the active frames, innermost first. *)
Inductive stack_walk :=
| Unsupported (sentinel : N)
| Walk (frames : list Frame).

Module backtrace.
Section Capturer.

(** The index the capturer passes along with its [n]-th delivered frame,
    and the maximum depth it scans ([STX_MAX_STACK_FRAME_DEPTH]): build
    parameters of stx/backtrace, kept abstract. *)
Variable frame_index : nat -> Z.
Variable max_depth : nat.

(** The visitor callback, with the state [V] it captures. *)
Definition Callback (V : Type) : Type := Frame -> Z -> V -> io (bool * V).

(** Modelled from the spec: the visiting loop of [backtrace::trace], whose
    definition (src/backtrace.cc) is outside this header.  The visitor is
    invoked once per frame in innermost-to-outermost order; when it returns
    false, capture stops at that frame without scanning further.  The
    result is the log of invocations made (frame and answer) together with
    the visitor's final state. *)
Fixpoint deliver {V} (visit : Callback V) (n : nat) (frames : list Frame) (v : V)
  : io (list (Frame * bool) * V) :=
  match frames with
  | [] => ret ([], v)
  | f :: rest =>
      r <- visit f (frame_index n) v ;;
      let '(continue, v') := r in
      if continue
      then r' <- deliver visit (S n) rest v' ;;
           ret ((f, true) :: fst r', snd r')
      else ret ([(f, false)], v')
  end.

(** The frames scanned by a capture: those past the skip depth, up to the
    maximum depth. *)
Definition scanned (skip : nat) (frames : list Frame) : list Frame :=
  firstn max_depth (skipn skip frames).

(** Modelled from the spec: [capture(skip, visit) -> frame_count].  When
    the platform has no stack walk the count is zero or a negative
    sentinel and the visitor is never invoked; otherwise the count is the
    number of frames delivered to the visitor. *)
Definition trace_log {V} (visit : Callback V) (skip : nat) (stack : stack_walk) (v : V)
  : io (list (Frame * bool) * V) :=
  match stack with
  | Unsupported _ => ret ([], v)
  | Walk frames => deliver visit 0 (scanned skip frames) v
  end.

Definition trace {V} (visit : Callback V) (skip : nat) (stack : stack_walk) (v : V)
  : io Z :=
  match stack with
  | Unsupported sentinel => ret (- Z.of_N sentinel)
  | Walk _ =>
      r <- trace_log visit skip stack v ;;
      ret (Z.of_nat (List.length (fst r)))
  end.

End Capturer.
End backtrace.

(** * The default panic handler *)

Definition nl : text := [x0a].
Definition tab : text := [x09].

(** The calling thread: its identity ([std::this_thread::get_id()]) and
    what a stack walk started on it finds. *)
Record thread := {
  tid : thread_id;
  stack : stack_walk
}.

Module panic_util.
Definition kFormatBufferSize : nat := 256.
End panic_util.

Section Handler.

(** Build switch [STX_ENABLE_PANIC_BACKTRACE]. *)
Variable STX_ENABLE_PANIC_BACKTRACE : bool.

(** [panic_util::kThreadIdHash], a [std::hash<std::thread::id>]. *)
Variable kThreadIdHash : thread_id -> N.

(** Modelled from the spec: the helpers [print_ptr] and [print_none] of
    the frame visitor are not part of this header's text; they print an
    address, and the marker used for an absent field.  The printed texts
    are kept abstract. *)
Variable ptr_text : Z -> text.
Variable none_text : text.

Variable frame_index : nat -> Z.
Variable max_depth : nat.

Definition print_none : io unit := fputs none_text.
Definition print_ptr (p : Z) : io unit := fprintf (ptr_text p).

Definition kBacktraceHeader : text :=
  nl ++ lit "Backtrace:" ++ nl ++
  lit "ip: Instruction Pointer,  sp: Stack Pointer" ++ nl ++ nl.

Definition kBacktraceWarning : text :=
  lit "WARNING >> The stack frames couldn't be identified, debug information was possibly stripped, unavailable, or elided by compiler" ++ nl.

(** The visitor handed to [backtrace::trace] (default.h lines 128-148). *)
Definition frame_visitor : backtrace.Callback unit :=
  fun frame i _ =>
    fprintf (lit "#" ++ Fmt.pct_d i ++ tab ++ tab) ;;
    option_match (symbol frame)
      (fun sym => for_each (raw sym) fputc)
      print_none ;;
    fputs (tab ++ lit " (ip: ") ;;
    option_match (ip frame) print_ptr print_none ;;
    fputs (lit ", sp: ") ;;
    option_match (sp frame) print_ptr print_none ;;
    fputs (lit ")" ++ nl) ;;
    ret (false, tt).

(** [snprintf(log_buffer, kFormatBufferSize, "%d", field)] then
    [fputs(log_buffer)], or ["unknown"] for a zero field
    (default.h lines 98-103 and 107-112). *)
Definition put_line_or_column (field : Z) : io unit :=
  if negb (field =? 0) then
    let log_buffer :=
      Fmt.snprintf panic_util.kFormatBufferSize (Fmt.pct_d field) in
    fputs log_buffer
  else
    fputs (lit "unknown").

(** default.h lines 118-161, compiled in under the build switch. *)
Definition put_backtrace (self : thread) : io unit :=
  fputs kBacktraceHeader ;;
  frames <- backtrace.trace frame_index max_depth frame_visitor 1 (stack self) tt ;;
  when (frames <=? 0) (fputs kBacktraceWarning) ;;
  fputs nl.

Definition panic_default (self : thread)
    (info : text) (payload : ReportPayload) (location : SourceLocation)
  : io unit :=
  let thread_id_hash := kThreadIdHash (tid self) in
  lock ;;
  fputs (nl ++ lit "thread with hash: '") ;;
  (let log_buffer :=
     Fmt.snprintf panic_util.kFormatBufferSize (Fmt.pct_zu thread_id_hash) in
   fputs log_buffer) ;;
  fputs (lit "' panicked with: '") ;;
  for_each info fputc ;;
  when (negb (empty (data payload)))
    (fputc ":"%byte ;;
     fputc " "%byte ;;
     for_each (data payload) fputc) ;;
  fputc "'"%byte ;;
  fputs (lit " at function: '") ;;
  fputs (function_name location) ;;
  fputs (lit "' [") ;;
  fputs (file_name location) ;;
  fputc ":"%byte ;;
  put_line_or_column (line location) ;;
  fputc ":"%byte ;;
  put_line_or_column (column location) ;;
  fputs (lit "]" ++ nl) ;;
  fflush ;;
  when STX_ENABLE_PANIC_BACKTRACE (put_backtrace self) ;;
  (* other threads will still be able to log for some nanoseconds *)
  unlock.

End Handler.

(** * Process state and the meaning of calls *)

Record world := {
  stderr_lock : option thread_id;  (* owner of the static mutex, if locked *)
  stderr_buffer : text;            (* written to the stream, not yet flushed *)
  stderr_device : text;            (* delivered to the device behind the stream *)
  aborted : bool                   (* the process was terminated by abort *)
}.

(** Everything written to the stream so far, in order.  How much of it the
    C library holds back until a flush is its own choice ([stderr] is not
    fully buffered unless the program asks for it); the split between
    [stderr_buffer] and [stderr_device] stands for that choice, and
    properties of the program are stated through [sink_text], which does not
    depend on it. *)
Definition sink_text (w : world) : text := stderr_device w ++ stderr_buffer w.

Definition set_lock (o : option thread_id) (w : world) : world :=
  {| stderr_lock := o; stderr_buffer := stderr_buffer w;
     stderr_device := stderr_device w; aborted := aborted w |}.

Definition append (s : text) (w : world) : world :=
  {| stderr_lock := stderr_lock w; stderr_buffer := stderr_buffer w ++ s;
     stderr_device := stderr_device w; aborted := aborted w |}.

Definition flush (w : world) : world :=
  {| stderr_lock := stderr_lock w; stderr_buffer := [];
     stderr_device := stderr_device w ++ stderr_buffer w; aborted := aborted w |}.

Definition kill (w : world) : world :=
  {| stderr_lock := stderr_lock w; stderr_buffer := stderr_buffer w;
     stderr_device := stderr_device w; aborted := true |}.

(** One call made by thread [t].  [None]: the call cannot proceed now (the
    mutex is held, so [lock] blocks), or has no defined behaviour (unlocking
    a mutex the thread does not own), or the process is already dead. *)
Definition exec (t : thread_id) (c : call) (w : world) : option world :=
  if aborted w then None else
  match c with
  | MutexLock =>
      match stderr_lock w with
      | None => Some (set_lock (Some t) w)
      | Some _ => None
      end
  | MutexUnlock =>
      match stderr_lock w with
      | Some o => if Nat.eqb o t then Some (set_lock None w) else None
      | None => None
      end
  | Fputc _ | Fputs _ | Fprintf _ => Some (append (written c) w)
  | Fflush => Some (flush w)
  | Abort => Some (kill w)
  end.

(** How a procedure run by one thread ends. *)
Inductive outcome :=
| Returned (w : world)    (* control is back in the caller *)
| Terminated (w : world)  (* the process was aborted; nothing returns *)
| Stuck (w : world).      (* a call could not proceed *)

Fixpoint run (t : thread_id) (cs : list call) (w : world) : outcome :=
  match cs with
  | [] => Returned w
  | c :: rest =>
      match exec t c w with
      | None => Stuck w
      | Some w' => if aborted w' then Terminated w' else run t rest w'
      end
  end.

(** A process in which nobody holds the mutex and nothing was written. *)
Definition world0 : world :=
  {| stderr_lock := None; stderr_buffer := []; stderr_device := [];
     aborted := false |}.

(** ** Threads running side by side *)

(** A thread and the calls it has still to make. *)
Definition task : Type := thread_id * list call.

Fixpoint update {A} (i : nat) (x : A) (l : list A) : list A :=
  match l, i with
  | [], _ => []
  | _ :: l', O => x :: l'
  | a :: l', S i' => a :: update i' x l'
  end.

(** The thread in slot [i] makes its next call. *)
Definition step_at (i : nat) (cfg : list task * world) : option (list task * world) :=
  let '(pool, w) := cfg in
  match nth_error pool i with
  | Some (t, c :: rest) =>
      match exec t c w with
      | Some w' => Some (update i (t, rest) pool, w')
      | None => None
      end
  | _ => None
  end.

(** An interleaving: the slots scheduled, in order. *)
Fixpoint run_schedule (sched : list nat) (cfg : list task * world)
  : option (list task * world) :=
  match sched with
  | [] => Some cfg
  | i :: sched' =>
      match step_at i cfg with
      | Some cfg' => run_schedule sched' cfg'
      | None => None
      end
  end.

Definition finished (pool : list task) : Prop :=
  Forall (fun tk : task => snd tk = []) pool.

(** * The output line grammar *)

Module Grammar.

(** [[: <payload-bytes>]]: present exactly when the payload is non-empty. *)
Definition payload_segment (payload : text) : text :=
  match payload with
  | [] => []
  | _ :: _ => lit ": " ++ payload
  end.

(** Everything up to and including the quote that opens the message. *)
Definition preamble (thread_identity : text) : text :=
  nl ++ lit "thread with hash: '" ++ thread_identity ++ lit "' panicked with: '".

(** From the quote that closes the message to the end of the line. *)
Definition location_part (fn file line_field column_field : text) : text :=
  lit "' at function: '" ++ fn ++ lit "' [" ++ file ++
  lit ":" ++ line_field ++ lit ":" ++ column_field ++ lit "]" ++ nl.

(** The report line:
    thread with hash: '<decimal>' panicked with: '<message>[: <payload>]'
    at function: '<fn>' [<file>:<line|unknown>:<column|unknown>] *)
Definition report_line
    (thread_identity info payload fn file line_field column_field : text) : text :=
  preamble thread_identity ++ info ++ payload_segment payload ++
  location_part fn file line_field column_field.

End Grammar.

(** The text the handler's formatting produces for the thread identity. *)
Definition thread_identity_text (hash : N) : text :=
  Fmt.snprintf panic_util.kFormatBufferSize (Fmt.pct_zu hash).

(** The text the handler writes for a line or column field. *)
Definition field_text (field : Z) : text :=
  written_all (calls (put_line_or_column field)).

(** The text of the backtrace block written for a thread. *)
Definition backtrace_text ptr_text none_text frame_index max_depth (self : thread) : text :=
  written_all (calls (put_backtrace ptr_text none_text frame_index max_depth self)).

(** The report line of one invocation. *)
Definition report_text (hash : N) (info : text) (payload : ReportPayload)
    (location : SourceLocation) : text :=
  Grammar.report_line (thread_identity_text hash) info (data payload)
    (function_name location) (file_name location)
    (field_text (line location)) (field_text (column location)).

(** The process state when the handler returns, having started in [w]: the
    report line was flushed through to the device together with whatever
    was pending, the backtrace block is in the stream's buffer, and the
    mutex is free. *)
Definition after_handler (w : world) (report backtrace_block : text) : world :=
  {| stderr_lock := None;
     stderr_buffer := backtrace_block;
     stderr_device := stderr_device w ++ stderr_buffer w ++ report;
     aborted := false |}.

(** ** Order of writes, flush and unlock in a call sequence *)

(** Every write is followed, later in the sequence, by a flush. *)
Fixpoint writes_precede_flush (cs : list call) : bool :=
  match cs with
  | [] => true
  | c :: rest =>
      (if is_write c then existsb is_flush rest else true) &&
      writes_precede_flush rest
  end.

(** Every flush is followed, later in the sequence, by the unlock. *)
Fixpoint flush_precedes_unlock (cs : list call) : bool :=
  match cs with
  | [] => true
  | c :: rest =>
      (if is_flush c then existsb is_unlock rest else true) &&
      flush_precedes_unlock rest
  end.

(** A call that only touches the stream. *)
Definition is_stream_call (c : call) : bool := is_write c || is_flush c.

(** ** Backtraces up to addresses *)

Definition erase_addresses (f : Frame) : Frame :=
  {| ip := option_map (fun _ => 0) (ip f);
     sp := option_map (fun _ => 0) (sp f);
     symbol := symbol f |}.

Definition erase_stack (s : stack_walk) : stack_walk :=
  match s with
  | Unsupported _ => Unsupported 0
  | Walk frames => Walk (map erase_addresses frames)
  end.

(** ** Concurrent invocations *)

(** One invocation of the handler: the calling thread and the arguments. *)
Record invocation := {
  inv_self : thread;
  inv_info : text;
  inv_payload : ReportPayload;
  inv_location : SourceLocation
}.

Section Invocations.

Variable STX_ENABLE_PANIC_BACKTRACE : bool.
Variable kThreadIdHash : thread_id -> N.
Variable ptr_text : Z -> text.
Variable none_text : text.
Variable frame_index : nat -> Z.
Variable max_depth : nat.

Definition invoke (i : invocation) : io unit :=
  panic_default STX_ENABLE_PANIC_BACKTRACE kThreadIdHash ptr_text none_text
    frame_index max_depth
    (inv_self i) (inv_info i) (inv_payload i) (inv_location i).

(** The thread of an invocation, about to enter the handler. *)
Definition spawn (i : invocation) : task := (tid (inv_self i), calls (invoke i)).

(** The complete diagnostic block of an invocation: what it writes when
    it runs alone. *)
Definition block (i : invocation) : text := written_all (calls (invoke i)).

End Invocations.

(** ** Threads queued on the mutex *)

(** A thread that has not yet entered: it will lock, run the calls of its
    critical section, and unlock. *)
Definition waiting (body : list call) : list call :=
  MutexLock :: body ++ [MutexUnlock].

(** The calls between the first and the last call of a sequence. *)
Definition critical_section (cs : list call) : list call := removelast (tl cs).

(** The text written by the critical section in slot [i]. *)
Definition slot_text (bodies : list (list call)) (i : nat) : text :=
  written_all (nth i bodies []).

(** A slot other than the one inside the critical section: still waiting,
    or through and recorded in [fin]. *)
Definition outside (bodies : list (list call)) (fin : list nat)
    (i : nat) (rest : list call) : Prop :=
  rest = waiting (nth i bodies []) \/ (rest = [] /\ In i fin).

(** The state of interleaved threads, each running [waiting] of its body,
    started with [base] already in the sink: [fin] lists the slots that are
    through, in the order they left; the sink holds [base], their texts in
    that order, and what the thread holding the mutex has written so far. *)
Definition coherent (base : text) (bodies : list (list call))
    (pool : list task) (w : world) : Prop :=
  aborted w = false /\
  List.length pool = List.length bodies /\
  exists fin : list nat,
    NoDup fin /\
    (forall i, In i fin -> exists t, nth_error pool i = Some (t, [])) /\
    match stderr_lock w with
    | None =>
        sink_text w = base ++ flat_map (slot_text bodies) fin /\
        (forall i t rest, nth_error pool i = Some (t, rest) ->
                          outside bodies fin i rest)
    | Some o =>
        exists j done todo,
          nth_error pool j = Some (o, todo ++ [MutexUnlock]) /\
          nth j bodies [] = done ++ todo /\
          sink_text w = (base ++ flat_map (slot_text bodies) fin) ++ written_all done /\
          (forall i t rest, i <> j -> nth_error pool i = Some (t, rest) ->
                            outside bodies fin i rest)
    end.

(** The number of calls the threads have still to make. *)
Definition remaining (pool : list task) : nat :=
  list_sum (map (fun tk : task => List.length (snd tk)) pool).

(** ** Sample inputs *)

Module Sample.

Definition hash : thread_id -> N := fun _ => 15729502191765196471%N.
Definition ptr (p : Z) : text := lit "0x" ++ Fmt.signed_decimal p.
Definition none : text := lit "unknown".
Definition index : nat -> Z := Z.of_nat.
Definition depth : nat := 64%nat.

Definition main_cc : SourceLocation :=
  {| file_name := lit "src/main.cc"; function_name := lit "main";
     line := 5; column := 1 |}.

Definition far_line : SourceLocation :=
  {| file_name := lit "gen.cc"; function_name := lit "f";
     line := 2147483648; column := 1 |}.

Definition no_payload : ReportPayload := {| data := [] |}.
Definition two_bytes : ReportPayload := {| data := [x01; x02] |}.

Definition frame_main : Frame :=
  {| ip := Some 4198400; sp := None; symbol := Some {| raw := lit "main" |} |}.
Definition frame_start : Frame :=
  {| ip := Some 4198000; sp := Some 140737488347000; symbol := None |}.

(** The handler's own frame, then its callers. *)
Definition walk : stack_walk :=
  Walk [ {| ip := Some 4199000; sp := None;
            symbol := Some {| raw := lit "panic_default" |} |};
         frame_main; frame_start ].

Definition t0 : thread := {| tid := 0%nat; stack := walk |}.
Definition t1 : thread := {| tid := 1%nat; stack := Unsupported 0 |}.

Definition inv0 : invocation :=
  {| inv_self := t0; inv_info := lit "disk full";
     inv_payload := no_payload; inv_location := main_cc |}.
Definition inv1 : invocation :=
  {| inv_self := t1; inv_info := lit "bad index";
     inv_payload := two_bytes; inv_location := main_cc |}.

Definition inv_far : invocation :=
  {| inv_self := t0; inv_info := lit "disk full";
     inv_payload := no_payload; inv_location := far_line |}.

(** A visitor that counts its invocations in its state and asks to stop
    once it has seen [k] frames. *)
Definition stop_after (k : nat) : backtrace.Callback nat :=
  fun _ _ seen => ret (Nat.ltb (S seen) k, S seen).

(** The stack of [t0] as another run of the program would load it: the
    same frames at other addresses. *)
Definition walk_moved : stack_walk :=
  Walk [ {| ip := Some 94199000; sp := None;
            symbol := Some {| raw := lit "panic_default" |} |};
         {| ip := Some 94198400; sp := None;
            symbol := Some {| raw := lit "main" |} |};
         {| ip := Some 94198000; sp := Some 140722000000000; symbol := None |} ].

Definition t2 : thread := {| tid := 2%nat; stack := walk_moved |}.

(** Addresses left out: each prints as the same placeholder. *)
Definition masked : Z -> text := fun _ => lit "0x?".

(** A process that has already written to the stream. *)
Definition world1 : world :=
  {| stderr_lock := None; stderr_buffer := lit "pending";
     stderr_device := lit "earlier output"; aborted := false |}.

(** The handler with these build parameters, run by the thread of an
    invocation. *)
Definition handler (bt : bool) (i : invocation) : io unit :=
  invoke bt hash ptr none index depth i.

Definition run_alone (bt : bool) (i : invocation) (w : world) : outcome :=
  run (tid (inv_self i)) (calls (handler bt i)) w.

(** Two panicking threads; the second is scheduled to completion first. *)
Definition pool : list task :=
  map (spawn false hash ptr none index depth) [inv0; inv1].

Definition schedule : list nat :=
  repeat 1%nat (List.length (calls (handler false inv1))) ++
  repeat 0%nat (List.length (calls (handler false inv0))).

Definition final : list task * world :=
  match run_schedule schedule (pool, world0) with
  | Some cfg => cfg
  | None => ([], world0)
  end.

End Sample.

(** ** A visitor taken by itself *)

Section Visitor.

Variable frame_index : nat -> Z.
Context {V : Type}.
Variable visit : backtrace.Callback V.

(** The visitor invoked on every frame of a sequence in turn, whatever it
    answers, starting with the [n]-th index: the calls it makes and the state
    it ends in. *)
Fixpoint invoke_on (n : nat) (frames : list Frame) (v : V) : io V :=
  match frames with
  | [] => ret v
  | f :: rest =>
      r <- visit f (frame_index n) v ;;
      invoke_on (S n) rest (snd r)
  end.

(** The answers the visitor gives when invoked on the frames in turn. *)
Fixpoint replies (n : nat) (frames : list Frame) (v : V) : list bool :=
  match frames with
  | [] => []
  | f :: rest =>
      let r := result (visit f (frame_index n) v) in
      fst r :: replies (S n) rest (snd r)
  end.

End Visitor.

(** ** Reading the report back *)

(** A reader of decimal integers, as a tool scanning the report for
    [<file>:<line>:<column>] would apply to a field. *)
Definition read_int (t : text) : option Z :=
  option_map Z.of_int (NilZero.int_of_string (string_of_list_byte t)).

(** ** Threads part-way through the handler *)

(** The thread in slot [i] has made some of its calls but not all. *)
Definition midway (start now : list task) (i : nat) : Prop :=
  exists t prog t' rest,
    nth_error start i = Some (t, prog) /\
    nth_error now i = Some (t', rest) /\
    rest <> [] /\ rest <> prog.

Module More.

Definition max_size_t : N := 18446744073709551615.

(** A stack of three frames, innermost first. *)
Definition frames : list Frame :=
  [ {| ip := Some 4199000; sp := None;
       symbol := Some {| raw := lit "panic_default" |} |};
    Sample.frame_main; Sample.frame_start ].

(** A visitor that writes a dot for every frame it is shown, counts the
    frames in its state, and asks to stop once it has seen [k] of them. *)
Definition dotting (k : nat) : backtrace.Callback nat :=
  fun _ _ seen => fputc "."%byte ;; ret (Nat.ltb (S seen) k, S seen).

(** A process in which thread 9 holds the mutex. *)
Definition held : world :=
  {| stderr_lock := Some 9%nat; stderr_buffer := lit "p";
     stderr_device := lit "d"; aborted := false |}.

(** The first thread has locked and written two calls' worth; the second
    has not started. *)
Definition partial_schedule : list nat := [0; 0; 0]%nat.

Definition partial : list task * world :=
  match run_schedule partial_schedule (Sample.pool, world0) with
  | Some cfg => cfg
  | None => ([], world0)
  end.

End More.

(** * Formatting facts *)

Lemma lit_length (s : string) : List.length (lit s) = String.length s.
Proof.
  unfold lit, list_byte_of_string. rewrite length_map.
  induction s as [|a s IH]; simpl; [reflexivity | now rewrite IH].
Qed.

Lemma string_of_uint_length (d : Decimal.uint) :
  String.length (NilEmpty.string_of_uint d) = Decimal.nb_digits d.
Proof. induction d; simpl; congruence. Qed.

Lemma nilzero_length (d : Decimal.uint) :
  (String.length (NilZero.string_of_uint d) <= S (Decimal.nb_digits d))%nat.
Proof.
  destruct d; simpl; try lia;
    rewrite string_of_uint_length; lia.
Qed.

(** Doubling a little-endian decimal adds at most one digit. *)
Lemma double_digits (d : Decimal.uint) :
  (Decimal.nb_digits (Decimal.Little.double d) <= S (Decimal.nb_digits d))%nat /\
  (Decimal.nb_digits (Decimal.Little.succ_double d) <= S (Decimal.nb_digits d))%nat.
Proof.
  induction d as [|d [IH1 IH2]|d [IH1 IH2]|d [IH1 IH2]|d [IH1 IH2]|d [IH1 IH2]
                  |d [IH1 IH2]|d [IH1 IH2]|d [IH1 IH2]|d [IH1 IH2]|d [IH1 IH2]];
    simpl; split; lia.
Qed.

Lemma pos_digits (p : positive) :
  (Decimal.nb_digits (Pos.to_uint p) <= Pos.size_nat p)%nat.
Proof.
  unfold Pos.to_uint. rewrite DecimalFacts.nb_digits_rev.
  induction p as [p IH|p IH|]; simpl.
  - pose proof (proj2 (double_digits (Pos.to_little_uint p))). lia.
  - pose proof (proj1 (double_digits (Pos.to_little_uint p))). lia.
  - lia.
Qed.

Lemma pos_size_32 (p : positive) :
  (p < 4294967296)%positive -> (Pos.size_nat p <= 33)%nat.
Proof.
  intros H. apply Pos.size_nat_monotone in H.
  exact H.
Qed.

(** A 32-bit value never needs more than a sign and 33 characters. *)
Lemma signed_decimal_length (z : Z) :
  -4294967296 < z < 4294967296 ->
  (List.length (Fmt.signed_decimal z) <= 35)%nat.
Proof.
  intros Hz. unfold Fmt.signed_decimal. rewrite lit_length.
  assert (Hpos : forall p, (p < 4294967296)%positive ->
            (String.length (NilZero.string_of_uint (Pos.to_uint p)) <= 34)%nat).
  { intros p Hp.
    pose proof (nilzero_length (Pos.to_uint p)) as H1.
    pose proof (pos_digits p) as H2.
    pose proof (pos_size_32 p Hp) as H3.
    clear Hp Hz.
    eapply Nat.le_trans; [exact H1|].
    apply le_n_S. eapply Nat.le_trans; [exact H2 | exact H3]. }
  destruct z as [|p|p].
  - simpl. apply le_S, le_S. repeat constructor.
  - simpl. apply le_S. apply Hpos.
    unfold Pos.lt. rewrite Pos2Z.inj_compare. apply Hz.
  - simpl. apply le_n_S. apply Hpos.
    unfold Pos.lt. rewrite Pos2Z.inj_compare.
    destruct Hz as [Hz _]. apply Z.opp_lt_mono in Hz. exact Hz.
Qed.

Lemma as_int_range (x : Z) : -2147483648 <= Fmt.as_int x <= Fmt.INT_MAX.
Proof.
  unfold Fmt.as_int, Fmt.INT_MAX.
  pose proof (Z.mod_pos_bound (x + 2147483648) 4294967296 eq_refl). lia.
Qed.

Lemma as_int_small (x : Z) :
  -2147483648 <= x <= Fmt.INT_MAX -> Fmt.as_int x = x.
Proof.
  unfold Fmt.as_int, Fmt.INT_MAX. intros H.
  rewrite Z.mod_small by lia. lia.
Qed.

(** The 256-byte [log_buffer] holds every ["%d"] rendering in full. *)
Lemma snprintf_pct_d (x : Z) :
  Fmt.snprintf panic_util.kFormatBufferSize (Fmt.pct_d x) = Fmt.pct_d x.
Proof.
  unfold Fmt.snprintf, Fmt.pct_d. apply firstn_all2.
  pose proof (as_int_range x) as H. unfold Fmt.INT_MAX in H.
  pose proof (signed_decimal_length (Fmt.as_int x)).
  unfold panic_util.kFormatBufferSize. simpl Nat.sub. lia.
Qed.

Lemma signed_decimal_nonneg (z : Z) :
  0 <= z -> Fmt.signed_decimal z = Fmt.decimal (Z.to_N z).
Proof.
  intros H. unfold Fmt.signed_decimal, Fmt.decimal.
  destruct z as [|p|p]; try reflexivity. lia.
Qed.

(** The 256-byte [log_buffer] holds the ["%zu"] rendering of every hash
    below 2^128 in full ("this will at least hold a formatted uint128_t"). *)
Lemma thread_identity_decimal (h : N) :
  (h < 340282366920938463463374607431768211456)%N ->
  thread_identity_text h = Fmt.decimal h.
Proof.
  intros H. unfold thread_identity_text, Fmt.snprintf, Fmt.pct_zu.
  apply firstn_all2. unfold Fmt.decimal. rewrite lit_length.
  destruct h as [|p].
  - cbn. repeat constructor.
  - assert (Hs : (Pos.size_nat p <= 129)%nat).
    { apply (Pos.size_nat_monotone p 340282366920938463463374607431768211456).
      apply N2Z.inj_lt in H.
      unfold Pos.lt. rewrite Pos2Z.inj_compare. exact H. }
    clear H. cbn [N.to_uint].
    pose proof (nilzero_length (Pos.to_uint p)) as H1.
    pose proof (pos_digits p) as H2.
    unfold panic_util.kFormatBufferSize. cbn [Nat.sub].
    eapply Nat.le_trans; [exact H1|].
    eapply Nat.le_trans; [apply le_n_S, (Nat.le_trans _ _ _ H2 Hs)|].
    apply Nat.leb_le. reflexivity.
Qed.

(** * The calls a procedure makes *)

Lemma calls_bind {A B} (m : io A) (k : A -> io B) :
  calls (bind m k) = calls m ++ calls (k (result m)).
Proof.
  destruct m as [a c1]. unfold bind, calls, result. simpl.
  destruct (k a) as [b c2]. reflexivity.
Qed.

Lemma result_bind {A B} (m : io A) (k : A -> io B) :
  result (bind m k) = result (k (result m)).
Proof.
  destruct m as [a c1]. unfold bind, result. simpl.
  destruct (k a) as [b c2]. reflexivity.
Qed.

Lemma calls_for_each_fputc (s : text) : calls (for_each s fputc) = map Fputc s.
Proof.
  induction s as [|c s IH]; [reflexivity|].
  cbn [for_each map]. rewrite calls_bind, IH. reflexivity.
Qed.

Lemma written_all_app (a b : list call) :
  written_all (a ++ b) = written_all a ++ written_all b.
Proof. apply flat_map_app. Qed.

Lemma written_all_putc (s : text) : written_all (map Fputc s) = s.
Proof. induction s as [|c s IH]; simpl; congruence. Qed.

Lemma putc_all_writes (s : text) : forallb is_write (map Fputc s) = true.
Proof. induction s as [|c s IH]; simpl; auto. Qed.

Lemma forallb_app_true {A} (f : A -> bool) (a b : list A) :
  forallb f a = true -> forallb f b = true -> forallb f (a ++ b) = true.
Proof. intros Ha Hb. rewrite forallb_app, Ha, Hb. reflexivity. Qed.

Lemma calls_put_field (field : Z) :
  calls (put_line_or_column field) =
  [Fputs (if field =? 0 then lit "unknown" else Fmt.pct_d field)].
Proof.
  unfold put_line_or_column. destruct (field =? 0); simpl.
  - reflexivity.
  - rewrite snprintf_pct_d. reflexivity.
Qed.

Lemma calls_option_match_ptr ptr_text none_text (o : option Z) :
  exists c, calls (option_match o (print_ptr ptr_text) (print_none none_text)) = [c]
            /\ is_write c = true.
Proof. destruct o; simpl; eexists; split; reflexivity. Qed.

Section HandlerCalls.

Variable STX_ENABLE_PANIC_BACKTRACE : bool.
Variable kThreadIdHash : thread_id -> N.
Variable ptr_text : Z -> text.
Variable none_text : text.
Variable frame_index : nat -> Z.
Variable max_depth : nat.

Let visitor := frame_visitor ptr_text none_text.

Lemma visitor_writes (f : Frame) (i : Z) :
  forallb is_write (calls (visitor f i tt)) = true.
Proof.
  unfold visitor, frame_visitor.
  repeat rewrite calls_bind.
  destruct (calls_option_match_ptr ptr_text none_text (ip f)) as [c1 [E1 W1]].
  destruct (calls_option_match_ptr ptr_text none_text (sp f)) as [c2 [E2 W2]].
  rewrite E1, E2.
  destruct (symbol f) as [sym|]; simpl.
  - rewrite calls_for_each_fputc, forallb_app, putc_all_writes.
    simpl. rewrite W1, W2. reflexivity.
  - rewrite W1, W2. reflexivity.
Qed.

Lemma visitor_result (f : Frame) (i : Z) :
  result (visitor f i tt) = (false, tt).
Proof.
  unfold visitor, frame_visitor. repeat rewrite result_bind. reflexivity.
Qed.

Lemma deliver_writes (frames : list Frame) (n : nat) :
  forallb is_write (calls (backtrace.deliver frame_index visitor n frames tt)) = true.
Proof.
  destruct frames as [|f rest]; [reflexivity|].
  cbn [backtrace.deliver]. rewrite calls_bind.
  pose proof (visitor_result f (frame_index n)) as R.
  pose proof (visitor_writes f (frame_index n)) as W.
  destruct (visitor f (frame_index n) tt) as [[b []] cs].
  unfold result in R. simpl in R. inversion R; subst b.
  simpl. rewrite app_nil_r. exact W.
Qed.

Lemma trace_writes (self : thread) :
  forallb is_write
    (calls (backtrace.trace frame_index max_depth visitor 1 (stack self) tt)) = true.
Proof.
  unfold backtrace.trace. destruct (stack self) as [s|frames]; [reflexivity|].
  rewrite calls_bind. simpl. rewrite app_nil_r. apply deliver_writes.
Qed.

Lemma backtrace_writes (self : thread) :
  forallb is_write
    (calls (put_backtrace ptr_text none_text frame_index max_depth self)) = true.
Proof.
  unfold put_backtrace. repeat rewrite calls_bind.
  simpl. apply forallb_app_true; [apply trace_writes|].
  apply forallb_app_true; [|reflexivity].
  unfold when. destruct (_ <=? 0); reflexivity.
Qed.

End HandlerCalls.

Section Anatomy.

Variable STX_ENABLE_PANIC_BACKTRACE : bool.
Variable kThreadIdHash : thread_id -> N.
Variable ptr_text : Z -> text.
Variable none_text : text.
Variable frame_index : nat -> Z.
Variable max_depth : nat.

Let handler :=
  panic_default STX_ENABLE_PANIC_BACKTRACE kThreadIdHash ptr_text none_text
    frame_index max_depth.

(** The handler is: lock, the writes of the report line, one flush, the
    writes of the backtrace block (when compiled in), unlock. *)
Lemma panic_default_anatomy self info payload location :
  exists report bt,
    calls (handler self info payload location) =
      MutexLock :: report ++ Fflush :: bt ++ [MutexUnlock]
    /\ forallb is_write report = true
    /\ forallb is_write bt = true
    /\ written_all report =
         report_text (kThreadIdHash (tid self)) info payload location
    /\ bt = (if STX_ENABLE_PANIC_BACKTRACE
             then calls (put_backtrace ptr_text none_text frame_index max_depth self)
             else []).
Proof.
  unfold handler, panic_default.
  repeat rewrite calls_bind.
  rewrite !calls_put_field, !calls_for_each_fputc.
  set (bt := calls (when STX_ENABLE_PANIC_BACKTRACE _)).
  set (pay := calls (when (negb (empty (data payload))) _)).
  assert (Hpay : pay = map Fputc (Grammar.payload_segment (data payload))).
  { subst pay. destruct (data payload) as [|b p]; [reflexivity|].
    cbn [empty negb when]. repeat rewrite calls_bind.
    rewrite calls_for_each_fputc. reflexivity. }
  rewrite Hpay.
  cbn [calls lock fputs fputc fflush unlock emit snd app].
  exists (Fputs (nl ++ lit "thread with hash: '")
          :: Fputs (thread_identity_text (kThreadIdHash (tid self)))
          :: Fputs (lit "' panicked with: '")
          :: map Fputc info ++
             map Fputc (Grammar.payload_segment (data payload)) ++
             [Fputc "'"%byte; Fputs (lit " at function: '");
              Fputs (function_name location); Fputs (lit "' [");
              Fputs (file_name location); Fputc ":"%byte;
              Fputs (field_text (line location)); Fputc ":"%byte;
              Fputs (field_text (column location));
              Fputs (lit "]" ++ nl)]).
  exists bt.
  assert (Hfield : forall f, field_text f =
                     (if f =? 0 then lit "unknown" else Fmt.pct_d f)).
  { intros f. unfold field_text. rewrite calls_put_field.
    cbn [written_all flat_map written]. apply List.app_nil_r. }
  split.
  { rewrite !Hfield. cbn [app]. rewrite <- !app_assoc. reflexivity. }
  split.
  { cbn [forallb is_write andb]. rewrite forallb_app, putc_all_writes.
    rewrite forallb_app, putc_all_writes. reflexivity. }
  split.
  { subst bt. unfold when.
    destruct STX_ENABLE_PANIC_BACKTRACE; [apply backtrace_writes | reflexivity]. }
  split.
  { unfold report_text, Grammar.report_line, Grammar.preamble,
      Grammar.location_part.
    change (written_all (?a :: ?b :: ?c :: ?l))
      with (written a ++ written b ++ written c ++ written_all l).
    rewrite !written_all_app, !written_all_putc.
    cbn [written_all flat_map written].
    rewrite <- !app_assoc. rewrite !List.app_nil_r. reflexivity. }
  subst bt. unfold when. destruct STX_ENABLE_PANIC_BACKTRACE; reflexivity.
Qed.

End Anatomy.

(** * Running calls on the process state *)

Lemma run_app (t : thread_id) (a b : list call) (w : world) :
  run t (a ++ b) w =
  match run t a w with
  | Returned w' => run t b w'
  | o => o
  end.
Proof.
  revert w. induction a as [|c a IH]; intros w; simpl; [reflexivity|].
  destruct (exec t c w) as [w'|]; [|reflexivity].
  destruct (aborted w'); [reflexivity | apply IH].
Qed.

Lemma append_nil (w : world) : append [] w = w.
Proof. destruct w. unfold append. simpl. now rewrite List.app_nil_r. Qed.

Lemma append_app (a b : text) (w : world) :
  append (a ++ b) w = append b (append a w).
Proof. unfold append. simpl. now rewrite app_assoc. Qed.

Lemma run_writes (t : thread_id) (cs : list call) (w : world) :
  forallb is_write cs = true ->
  aborted w = false ->
  run t cs w = Returned (append (written_all cs) w).
Proof.
  revert w. induction cs as [|c cs IH]; intros w Hcs Hw.
  - simpl. now rewrite append_nil.
  - simpl in Hcs. apply andb_prop in Hcs as [Hc Hcs].
    cbn [run written_all flat_map]. fold (written_all cs).
    rewrite append_app.
    assert (E : exec t c w = Some (append (written c) w)).
    { unfold exec. rewrite Hw. destruct c; try discriminate; reflexivity. }
    rewrite E. cbn [aborted append]. rewrite Hw. apply IH; auto.
Qed.

(** A free mutex is taken, the writes land in the buffer, the flush pushes
    them through, later writes stay buffered, and the mutex is released. *)
Lemma run_bracket (t : thread_id) (report bt : list call) (w : world) :
  forallb is_write report = true ->
  forallb is_write bt = true ->
  stderr_lock w = None ->
  aborted w = false ->
  run t (MutexLock :: report ++ Fflush :: bt ++ [MutexUnlock]) w =
  Returned (after_handler w (written_all report) (written_all bt)).
Proof.
  intros Hr Hb Hl Ha.
  cbn [run]. unfold exec at 1. rewrite Ha, Hl. cbn [aborted set_lock]. rewrite Ha.
  rewrite run_app, run_writes by auto.
  cbn [run]. unfold exec at 1. cbn [aborted append set_lock flush]. rewrite Ha.
  rewrite run_app, run_writes by auto.
  cbn [run]. unfold exec.
  cbn [aborted append set_lock flush stderr_lock]. rewrite Ha.
  rewrite Nat.eqb_refl. cbn [aborted set_lock]. rewrite ?Ha.
  unfold after_handler, set_lock, append, flush. cbn.
  rewrite Ha, ?List.app_nil_r, <- ?app_assoc. reflexivity.
Qed.

Section HandlerRun.

Variable STX_ENABLE_PANIC_BACKTRACE : bool.
Variable kThreadIdHash : thread_id -> N.
Variable ptr_text : Z -> text.
Variable none_text : text.
Variable frame_index : nat -> Z.
Variable max_depth : nat.

Let handler :=
  panic_default STX_ENABLE_PANIC_BACKTRACE kThreadIdHash ptr_text none_text
    frame_index max_depth.

Let block_of (self : thread) : text :=
  if STX_ENABLE_PANIC_BACKTRACE
  then backtrace_text ptr_text none_text frame_index max_depth self
  else [].

(** The handler, entered with the mutex free in a live process, runs to
    its end and returns. *)
Lemma run_panic_default self info payload location (w : world) :
  stderr_lock w = None ->
  aborted w = false ->
  run (tid self) (calls (handler self info payload location)) w =
  Returned (after_handler w
              (report_text (kThreadIdHash (tid self)) info payload location)
              (block_of self)).
Proof.
  intros Hl Ha.
  destruct (panic_default_anatomy STX_ENABLE_PANIC_BACKTRACE kThreadIdHash
              ptr_text none_text frame_index max_depth
              self info payload location)
    as (report & bt & Hcalls & Hr & Hb & Htext & Hbt).
  fold handler in Hcalls. rewrite Hcalls.
  rewrite run_bracket by assumption.
  rewrite Htext. f_equal. f_equal.
  subst bt. unfold block_of, backtrace_text.
  destruct STX_ENABLE_PANIC_BACKTRACE; reflexivity.
Qed.

(** What the handler writes, as one text. *)
Lemma written_panic_default self info payload location :
  written_all (calls (handler self info payload location)) =
  report_text (kThreadIdHash (tid self)) info payload location ++ block_of self.
Proof.
  destruct (panic_default_anatomy STX_ENABLE_PANIC_BACKTRACE kThreadIdHash
              ptr_text none_text frame_index max_depth
              self info payload location)
    as (report & bt & Hcalls & Hr & Hb & Htext & Hbt).
  fold handler in Hcalls. rewrite Hcalls.
  change (MutexLock :: report ++ Fflush :: bt ++ [MutexUnlock])
    with ([MutexLock] ++ report ++ [Fflush] ++ bt ++ [MutexUnlock]).
  rewrite !written_all_app, Htext. cbn [written_all flat_map written app].
  rewrite List.app_nil_r. f_equal.
  subst bt. unfold block_of, backtrace_text.
  destruct STX_ENABLE_PANIC_BACKTRACE; reflexivity.
Qed.

End HandlerRun.

Lemma sink_after_handler (w : world) (report bt : text) :
  sink_text (after_handler w report bt) = sink_text w ++ report ++ bt.
Proof.
  unfold sink_text, after_handler. simpl. now rewrite <- !app_assoc.
Qed.

Lemma writes_no_abort (cs : list call) :
  forallb is_write cs = true -> existsb is_abort cs = false.
Proof.
  induction cs as [|c cs IH]; simpl; [reflexivity|].
  intros H. apply andb_prop in H as [Hc Hcs].
  rewrite (IH Hcs). destruct c; try discriminate; reflexivity.
Qed.

Lemma writes_no_lock (cs : list call) :
  forallb is_write cs = true ->
  filter is_lock cs = [] /\ filter is_unlock cs = [].
Proof.
  induction cs as [|c cs IH]; simpl; [auto|].
  intros H. apply andb_prop in H as [Hc Hcs].
  destruct (IH Hcs) as [IH1 IH2].
  destruct c; try discriminate; simpl; auto.
Qed.

Lemma writes_are_stream_calls (cs : list call) :
  forallb is_write cs = true -> forallb is_stream_call cs = true.
Proof.
  induction cs as [|c cs IH]; simpl; [reflexivity|].
  intros H. apply andb_prop in H as [Hc Hcs].
  unfold is_stream_call at 1. rewrite Hc, (IH Hcs). reflexivity.
Qed.

(** ** Line and column fields *)

Lemma field_text_eq (f : Z) :
  field_text f = if f =? 0 then lit "unknown" else Fmt.pct_d f.
Proof.
  unfold field_text. rewrite calls_put_field.
  cbn [written_all flat_map written]. apply List.app_nil_r.
Qed.

Lemma field_text_zero : field_text 0 = lit "unknown".
Proof. reflexivity. Qed.

(** A non-zero field that fits in [int] is rendered in decimal. *)
Lemma field_text_int (f : Z) :
  0 < f <= Fmt.INT_MAX -> field_text f = Fmt.decimal (Z.to_N f).
Proof.
  intros H. rewrite field_text_eq.
  destruct (Z.eqb_spec f 0) as [E|_]; [lia|].
  unfold Fmt.pct_d. rewrite as_int_small by (unfold Fmt.INT_MAX in *; lia).
  apply signed_decimal_nonneg. lia.
Qed.

(** A field above [INT_MAX] is read back by ["%d"] as a negative [int]. *)
Lemma field_text_wraps (f : Z) :
  Fmt.INT_MAX < f <= Fmt.UINT32_MAX ->
  field_text f = Fmt.signed_decimal (f - 4294967296).
Proof.
  intros H. unfold Fmt.INT_MAX, Fmt.UINT32_MAX in H. rewrite field_text_eq.
  destruct (Z.eqb_spec f 0) as [E|_]; [lia|].
  unfold Fmt.pct_d. f_equal. unfold Fmt.as_int.
  replace (f + 2147483648) with ((f - 2147483648) + 1 * 4294967296) by lia.
  rewrite Z.mod_add by lia. rewrite Z.mod_small by lia. lia.
Qed.

(** * Properties of the default panic handler *)

Section HandlerProperties.

Variable STX_ENABLE_PANIC_BACKTRACE : bool.
Variable kThreadIdHash : thread_id -> N.
Variable ptr_text : Z -> text.
Variable none_text : text.
Variable frame_index : nat -> Z.
Variable max_depth : nat.

Let handler :=
  panic_default STX_ENABLE_PANIC_BACKTRACE kThreadIdHash ptr_text none_text
    frame_index max_depth.

Let block_of (self : thread) : text :=
  if STX_ENABLE_PANIC_BACKTRACE
  then backtrace_text ptr_text none_text frame_index max_depth self
  else [].

(** What the handler does instead of terminating, on every input: entered
    with the sink mutex free, [panic_default] emits its diagnostic block,
    releases the mutex and returns control to its caller; it makes no
    [abort] call and leaves the process alive. *)
Theorem panic_default_returns_to_caller self info payload location (w : world) :
  stderr_lock w = None ->
  aborted w = false ->
  exists w',
    run (tid self) (calls (handler self info payload location)) w = Returned w'
    /\ aborted w' = false
    /\ stderr_lock w' = None
    /\ existsb is_abort (calls (handler self info payload location)) = false.
Proof.
  intros Hl Ha. eexists. split.
  - apply run_panic_default; assumption.
  - repeat split.
    destruct (panic_default_anatomy STX_ENABLE_PANIC_BACKTRACE kThreadIdHash
                ptr_text none_text frame_index max_depth
                self info payload location)
      as (report & bt & Hcalls & Hr & Hb & _).
    fold handler in Hcalls. rewrite Hcalls.
    cbn [existsb is_abort orb]. rewrite existsb_app.
    cbn [existsb is_abort orb]. rewrite existsb_app.
    rewrite (writes_no_abort _ Hr), (writes_no_abort _ Hb). reflexivity.
Qed.

(** C2: the message is written verbatim after the opening quote; a
    non-empty payload follows it verbatim after the delimiter [": "]; with
    an empty payload the closing quote follows the message directly. *)
Theorem panic_default_message_and_payload self info payload location (w : world) :
  stderr_lock w = None ->
  aborted w = false ->
  exists w',
    run (tid self) (calls (handler self info payload location)) w = Returned w'
    /\ (data payload = [] ->
        exists rest,
          sink_text w' =
            sink_text w ++
            Grammar.preamble (thread_identity_text (kThreadIdHash (tid self))) ++
            info ++ lit "' at function: '" ++ rest)
    /\ (data payload <> [] ->
        exists rest,
          sink_text w' =
            sink_text w ++
            Grammar.preamble (thread_identity_text (kThreadIdHash (tid self))) ++
            info ++ lit ": " ++ data payload ++ lit "' at function: '" ++ rest).
Proof.
  intros Hl Ha. eexists. split; [apply run_panic_default; assumption|].
  rewrite sink_after_handler.
  unfold report_text, Grammar.report_line, Grammar.location_part.
  split; intros Hp.
  - rewrite Hp. cbn [Grammar.payload_segment app].
    eexists. rewrite <- !app_assoc. reflexivity.
  - destruct (data payload) as [|b p] eqn:E; [congruence|].
    cbn [Grammar.payload_segment].
    eexists. rewrite <- !app_assoc. reflexivity.
Qed.

(** C4: the sink receives, in this order, the thread identity, the
    message, the payload (only when non-empty, after its delimiter), the
    function name, the file name, the line and the column. *)
Theorem panic_default_field_order self info payload location (w : world) :
  stderr_lock w = None ->
  aborted w = false ->
  exists w',
    run (tid self) (calls (handler self info payload location)) w = Returned w'
    /\ sink_text w' =
         sink_text w ++
         (nl ++ lit "thread with hash: '" ++
          thread_identity_text (kThreadIdHash (tid self)) ++
          lit "' panicked with: '" ++
          info ++
          (if empty (data payload) then [] else lit ": " ++ data payload) ++
          lit "' at function: '" ++
          function_name location ++
          lit "' [" ++
          file_name location ++
          lit ":" ++
          field_text (line location) ++
          lit ":" ++
          field_text (column location) ++
          lit "]" ++ nl) ++
         block_of self.
Proof.
  intros Hl Ha. eexists. split; [apply run_panic_default; assumption|].
  rewrite sink_after_handler. f_equal. f_equal.
  unfold report_text, Grammar.report_line, Grammar.preamble,
    Grammar.location_part.
  destruct (data payload) as [|b p]; cbn [Grammar.payload_segment empty];
    rewrite <- !app_assoc; reflexivity.
Qed.

End HandlerProperties.

(** ** Order of writes, flush and unlock *)

Lemma writes_precede_flush_app (a rest : list call) :
  forallb is_write a = true ->
  existsb is_flush rest = true ->
  writes_precede_flush (a ++ rest) = writes_precede_flush rest.
Proof.
  intros Ha Hf. induction a as [|c a IH]; [reflexivity|].
  simpl in Ha. apply andb_prop in Ha as [Hc Ha].
  cbn [app writes_precede_flush]. rewrite Hc, existsb_app, Hf, orb_true_r.
  cbn [andb]. auto.
Qed.

Lemma writes_precede_flush_none (a rest : list call) :
  forallb is_write a = true ->
  a <> [] ->
  existsb is_flush rest = false ->
  writes_precede_flush (a ++ rest) = false.
Proof.
  intros Ha Hne Hf. induction a as [|c a IH]; [congruence|].
  simpl in Ha. apply andb_prop in Ha as [Hc Ha].
  cbn [app writes_precede_flush]. rewrite Hc.
  destruct a as [|c' a'].
  - cbn [app]. rewrite Hf. reflexivity.
  - rewrite IH by (auto; discriminate). apply andb_false_r.
Qed.

Lemma writes_no_flush (cs : list call) :
  forallb is_write cs = true -> existsb is_flush cs = false.
Proof.
  induction cs as [|c cs IH]; simpl; [reflexivity|].
  intros H. apply andb_prop in H as [Hc Hcs].
  rewrite (IH Hcs). destruct c; try discriminate; reflexivity.
Qed.

Lemma flush_precedes_unlock_app (a rest : list call) :
  forallb is_write a = true ->
  flush_precedes_unlock (a ++ rest) = flush_precedes_unlock rest.
Proof.
  intros Ha. induction a as [|c a IH]; [reflexivity|].
  simpl in Ha. apply andb_prop in Ha as [Hc Ha].
  cbn [app flush_precedes_unlock].
  replace (is_flush c) with false by (destruct c; try discriminate; reflexivity).
  cbn [andb]. auto.
Qed.

Lemma put_backtrace_nonempty ptr_text none_text frame_index max_depth self :
  calls (put_backtrace ptr_text none_text frame_index max_depth self) <> [].
Proof.
  unfold put_backtrace. rewrite calls_bind. discriminate.
Qed.

Section FlushOrder.

Variable STX_ENABLE_PANIC_BACKTRACE : bool.
Variable kThreadIdHash : thread_id -> N.
Variable ptr_text : Z -> text.
Variable none_text : text.
Variable frame_index : nat -> Z.
Variable max_depth : nat.

Let handler :=
  panic_default STX_ENABLE_PANIC_BACKTRACE kThreadIdHash ptr_text none_text
    frame_index max_depth.

(** C5, amended: the bytes of the report line are all written before the
    handler's single flush, and the flush comes before the mutex is
    released.  With backtrace capture compiled in, the bytes of the
    backtrace block are written after that flush, before the release, and
    no flush follows them; with it compiled out, every byte written
    precedes the flush. *)
Theorem panic_default_flush_order self info payload location :
  exists report bt,
    calls (handler self info payload location) =
      MutexLock :: report ++ Fflush :: bt ++ [MutexUnlock]
    /\ forallb is_write report = true
    /\ written_all report =
         report_text (kThreadIdHash (tid self)) info payload location
    /\ forallb is_write bt = true
    /\ flush_precedes_unlock (calls (handler self info payload location)) = true
    /\ writes_precede_flush (calls (handler self info payload location)) =
         negb STX_ENABLE_PANIC_BACKTRACE
    /\ (if STX_ENABLE_PANIC_BACKTRACE
        then bt <> [] /\
             written_all bt =
               backtrace_text ptr_text none_text frame_index max_depth self
        else bt = []).
Proof.
  destruct (panic_default_anatomy STX_ENABLE_PANIC_BACKTRACE kThreadIdHash
              ptr_text none_text frame_index max_depth
              self info payload location)
    as (report & bt & Hcalls & Hr & Hb & Htext & Hbt).
  fold handler in Hcalls.
  exists report, bt. rewrite Hcalls.
  split; [reflexivity|]. split; [exact Hr|]. split; [exact Htext|].
  split; [exact Hb|]. split; [|split].
  - cbn [flush_precedes_unlock is_flush andb].
    rewrite flush_precedes_unlock_app by assumption.
    cbn [flush_precedes_unlock is_flush].
    rewrite existsb_app. cbn [existsb is_unlock]. rewrite orb_true_r.
    rewrite flush_precedes_unlock_app by assumption. reflexivity.
  - cbn [writes_precede_flush is_write andb].
    rewrite writes_precede_flush_app by (auto; reflexivity).
    cbn [writes_precede_flush is_write andb].
    destruct STX_ENABLE_PANIC_BACKTRACE.
    + apply writes_precede_flush_none; auto.
      subst bt. apply put_backtrace_nonempty.
    + subst bt. reflexivity.
  - destruct STX_ENABLE_PANIC_BACKTRACE; subst bt.
    + split; [apply put_backtrace_nonempty | reflexivity].
    + reflexivity.
Qed.

(** C10: the static mutex is locked once and unlocked once; every call
    on the stream lies between the two; and whenever the handler returns,
    the mutex is free. *)
Theorem panic_default_lock_discipline self info payload location :
  List.length (filter is_lock (calls (handler self info payload location))) = 1%nat
  /\ List.length (filter is_unlock (calls (handler self info payload location))) = 1%nat
  /\ (exists body,
        calls (handler self info payload location) =
          MutexLock :: body ++ [MutexUnlock]
        /\ forallb is_stream_call body = true)
  /\ (forall w w',
        run (tid self) (calls (handler self info payload location)) w = Returned w' ->
        stderr_lock w' = None).
Proof.
  destruct (panic_default_anatomy STX_ENABLE_PANIC_BACKTRACE kThreadIdHash
              ptr_text none_text frame_index max_depth
              self info payload location)
    as (report & bt & Hcalls & Hr & Hb & Htext & Hbt).
  fold handler in Hcalls.
  destruct (writes_no_lock _ Hr) as [Lr Ur].
  destruct (writes_no_lock _ Hb) as [Lb Ub].
  split; [|split; [|split]].
  - rewrite Hcalls. cbn [filter is_lock]. rewrite filter_app, Lr.
    cbn [filter is_lock app]. rewrite filter_app, Lb. reflexivity.
  - rewrite Hcalls. cbn [filter is_unlock]. rewrite filter_app, Ur.
    cbn [filter is_unlock app]. rewrite filter_app, Ub. reflexivity.
  - exists (report ++ Fflush :: bt). split.
    + rewrite Hcalls. rewrite <- app_assoc. reflexivity.
    + rewrite forallb_app. rewrite (writes_are_stream_calls _ Hr).
      cbn [forallb andb]. rewrite (writes_are_stream_calls _ Hb). reflexivity.
  - intros w w' Hrun.
    destruct (aborted w) eqn:Ha.
    { rewrite Hcalls in Hrun. cbn [run] in Hrun. unfold exec in Hrun.
      rewrite Ha in Hrun. discriminate. }
    destruct (stderr_lock w) as [o|] eqn:Hl.
    { rewrite Hcalls in Hrun. cbn [run] in Hrun. unfold exec in Hrun.
      rewrite Ha, Hl in Hrun. discriminate. }
    unfold handler in Hrun.
    rewrite run_panic_default in Hrun by assumption.
    inversion Hrun. reflexivity.
Qed.

End FlushOrder.

(** * The capturer's visiting loop *)

Section CapturerProperties.

Variable frame_index : nat -> Z.
Variable max_depth : nat.
Context {V : Type}.
Variable visit : backtrace.Callback V.

Let log_of (n : nat) (frames : list Frame) (v : V) : list (Frame * bool) :=
  fst (result (backtrace.deliver frame_index visit n frames v)).

Lemma deliver_log_step (n : nat) (f : Frame) (rest : list Frame) (v : V) :
  log_of n (f :: rest) v =
  if fst (result (visit f (frame_index n) v))
  then (f, true) :: log_of (S n) rest (snd (result (visit f (frame_index n) v)))
  else [(f, false)].
Proof.
  unfold log_of. cbn [backtrace.deliver]. rewrite result_bind.
  destruct (visit f (frame_index n) v) as [[b v'] cs].
  cbn [result fst snd]. destruct b.
  - rewrite result_bind. reflexivity.
  - reflexivity.
Qed.

(** An answer of false can only be the last entry of the log. *)
Lemma deliver_false_is_last (frames : list Frame) :
  forall n v k f,
    nth_error (log_of n frames v) k = Some (f, false) ->
    List.length (log_of n frames v) = S k.
Proof.
  induction frames as [|g rest IH]; intros n v k f H.
  - destruct k; discriminate H.
  - rewrite deliver_log_step in *.
    destruct (fst (result (visit g (frame_index n) v))).
    + destruct k as [|k]; [discriminate H|].
      cbn [nth_error] in H. cbn [List.length]. f_equal. eapply IH, H.
    + destruct k as [|k]; [reflexivity|].
      destruct k; discriminate H.
Qed.

(** The frames in the log are the leading frames of the sequence. *)
Lemma deliver_log_prefix (frames : list Frame) :
  forall n v,
    map fst (log_of n frames v) =
    firstn (List.length (log_of n frames v)) frames.
Proof.
  induction frames as [|g rest IH]; intros n v.
  - reflexivity.
  - rewrite deliver_log_step.
    destruct (fst (result (visit g (frame_index n) v))).
    + cbn [map fst List.length firstn]. f_equal. apply IH.
    + reflexivity.
Qed.

Lemma deliver_log_bound (frames : list Frame) :
  forall n v, (List.length (log_of n frames v) <= List.length frames)%nat.
Proof.
  induction frames as [|g rest IH]; intros n v.
  - apply Nat.le_refl.
  - rewrite deliver_log_step.
    destruct (fst (result (visit g (frame_index n) v))); cbn [List.length].
    + apply le_n_S, IH.
    + apply le_n_S, Nat.le_0_l.
Qed.

Lemma deliver_log_nonempty (f : Frame) (rest : list Frame) n v :
  log_of n (f :: rest) v <> [].
Proof.
  rewrite deliver_log_step.
  destruct (fst (result (visit f (frame_index n) v))); discriminate.
Qed.

Lemma replies_length (frames : list Frame) :
  forall n v, List.length (replies frame_index visit n frames v) = List.length frames.
Proof.
  induction frames as [|f rest IH]; intros n v; cbn [replies List.length];
    [reflexivity | now rewrite IH].
Qed.

(** When the visitor's first answer of false is its [S k]-th, the loop has
    exactly the effect of invoking the visitor on the first [S k] frames:
    the same calls, the same final state, and a log of those frames. *)
Lemma deliver_effect (frames : list Frame) :
  forall n v k,
    firstn (S k) (replies frame_index visit n frames v) = repeat true k ++ [false] ->
    calls (backtrace.deliver frame_index visit n frames v) =
      calls (invoke_on frame_index visit n (firstn (S k) frames) v)
    /\ snd (result (backtrace.deliver frame_index visit n frames v)) =
         result (invoke_on frame_index visit n (firstn (S k) frames) v)
    /\ fst (result (backtrace.deliver frame_index visit n frames v)) =
         combine (firstn (S k) frames) (repeat true k ++ [false]).
Proof.
  induction frames as [|f rest IH]; intros n v k H.
  - destruct k; discriminate H.
  - cbn [replies firstn] in H.
    cbn [backtrace.deliver invoke_on firstn].
    rewrite !calls_bind, !result_bind.
    destruct (visit f (frame_index n) v) as [[b v'] cs].
    cbn [result fst snd calls] in *.
    destruct k as [|k].
    + cbn [repeat app firstn] in H. injection H as Hb. subst b.
      cbn [invoke_on firstn combine repeat app calls result ret fst snd].
      repeat split.
    + cbn [repeat app] in H. injection H as Hb H. subst b.
      destruct (IH (S n) v' k H) as (Hc & Hs & Hl).
      rewrite calls_bind, result_bind.
      cbn [calls result ret fst snd repeat app combine].
      rewrite List.app_nil_r, Hc, Hs, Hl. repeat split.
Qed.

(** C8: whatever the skip depth, the visitor (with whatever state it
    keeps) and the depth of the stack, if the visitor answers true on the
    first [k - 1] frames delivered to it and false on the [k]-th, capture
    stops there: the calls made and the state the visitor is left in are
    those of invoking it on the first [k] frames past the skip depth and on
    no other, those [k] frames are the ones logged, and [k] is the count
    returned. *)
Theorem trace_visits_exactly_k_frames
    (skip : nat) (frames : list Frame) (v : V) (k : nat) :
  (1 <= k)%nat ->
  firstn k (replies frame_index visit 0 (backtrace.scanned max_depth skip frames) v)
    = repeat true (k - 1) ++ [false] ->
  result (backtrace.trace frame_index max_depth visit skip (Walk frames) v) = Z.of_nat k
  /\ calls (backtrace.trace frame_index max_depth visit skip (Walk frames) v) =
       calls (invoke_on frame_index visit 0 (firstn k (skipn skip frames)) v)
  /\ snd (result (backtrace.trace_log frame_index max_depth visit skip (Walk frames) v)) =
       result (invoke_on frame_index visit 0 (firstn k (skipn skip frames)) v)
  /\ fst (result (backtrace.trace_log frame_index max_depth visit skip (Walk frames) v)) =
       combine (firstn k (skipn skip frames)) (repeat true (k - 1) ++ [false]).
Proof.
  intros Hk H.
  destruct k as [|k]; [inversion Hk|]. clear Hk.
  cbn [Nat.sub] in H. rewrite Nat.sub_0_r in *.
  assert (Hlen : (S k <= max_depth)%nat).
  { apply (f_equal (@List.length bool)) in H.
    rewrite length_firstn, replies_length, length_app, repeat_length in H.
    unfold backtrace.scanned in H. rewrite length_firstn in H.
    cbn [List.length] in H. lia. }
  assert (Hfirst : firstn (S k) (backtrace.scanned max_depth skip frames) =
                   firstn (S k) (skipn skip frames)).
  { unfold backtrace.scanned. rewrite firstn_firstn. f_equal. lia. }
  destruct (deliver_effect _ _ _ _ H) as (Hc & Hs & Hl).
  rewrite Hfirst in Hc, Hs, Hl.
  cbn [Nat.sub]. rewrite Nat.sub_0_r.
  unfold backtrace.trace, backtrace.trace_log.
  rewrite calls_bind, result_bind. cbn [calls result ret fst snd].
  rewrite List.app_nil_r.
  split; [|split; [exact Hc | split; [exact Hs | exact Hl]]].
  fold (@result (list (Frame * bool) * V)). rewrite Hl.
  rewrite length_combine, length_firstn, length_app, repeat_length.
  cbn [List.length].
  apply (f_equal (@List.length (Frame * bool))) in Hl.
  f_equal.
  assert (Hsk : (S k <= List.length (skipn skip frames))%nat).
  { apply (f_equal (@List.length bool)) in H.
    rewrite length_firstn, replies_length, length_app, repeat_length in H.
    unfold backtrace.scanned in H. rewrite length_firstn in H.
    cbn [List.length] in H. lia. }
  lia.
Qed.

End CapturerProperties.

(** * The backtrace block *)

Section BacktraceBlock.

Variable ptr_text : Z -> text.
Variable none_text : text.
Variable frame_index : nat -> Z.
Variable max_depth : nat.

Let visitor := frame_visitor ptr_text none_text.

(** The handler's visitor answers false on its first frame, so the loop
    delivers one frame at most. *)
Lemma deliver_frame_visitor (f : Frame) (rest : list Frame) (n : nat) :
  backtrace.deliver frame_index visitor n (f :: rest) tt =
  (([(f, false)], tt), calls (visitor f (frame_index n) tt)).
Proof.
  cbn [backtrace.deliver].
  pose proof (visitor_result ptr_text none_text f (frame_index n)) as R.
  fold visitor in R.
  destruct (visitor f (frame_index n) tt) as [[b []] cs].
  unfold result in R. cbn in R. inversion R; subst b.
  unfold bind, ret, calls. cbn. now rewrite List.app_nil_r.
Qed.

Lemma result_trace (self : thread) :
  result (backtrace.trace frame_index max_depth visitor 1 (stack self) tt) =
  match stack self with
  | Unsupported s => - Z.of_N s
  | Walk frames =>
      match backtrace.scanned max_depth 1 frames with
      | [] => 0
      | _ :: _ => 1
      end
  end.
Proof.
  destruct (stack self) as [s|frames]; [reflexivity|].
  unfold backtrace.trace, backtrace.trace_log.
  destruct (backtrace.scanned max_depth 1 frames) as [|f rest].
  - reflexivity.
  - rewrite deliver_frame_visitor. reflexivity.
Qed.

Lemma calls_trace (self : thread) :
  calls (backtrace.trace frame_index max_depth visitor 1 (stack self) tt) =
  match stack self with
  | Unsupported _ => []
  | Walk frames =>
      match backtrace.scanned max_depth 1 frames with
      | [] => []
      | f :: _ => calls (visitor f (frame_index 0) tt)
      end
  end.
Proof.
  destruct (stack self) as [s|frames]; [reflexivity|].
  unfold backtrace.trace, backtrace.trace_log.
  destruct (backtrace.scanned max_depth 1 frames) as [|f rest].
  - reflexivity.
  - rewrite deliver_frame_visitor.
    unfold bind, ret, calls. cbn. now rewrite List.app_nil_r.
Qed.

(** The per-frame part of the block: the warning when no frame was
    reported, the first scanned frame's entry otherwise. *)
Lemma calls_put_backtrace (self : thread) :
  calls (put_backtrace ptr_text none_text frame_index max_depth self) =
  Fputs kBacktraceHeader ::
  match stack self with
  | Unsupported _ => [Fputs kBacktraceWarning]
  | Walk frames =>
      match backtrace.scanned max_depth 1 frames with
      | [] => [Fputs kBacktraceWarning]
      | f :: _ => calls (visitor f (frame_index 0) tt)
      end
  end ++ [Fputs nl].
Proof.
  unfold put_backtrace. repeat rewrite calls_bind.
  fold visitor. rewrite result_trace, calls_trace.
  cbn [calls fputs emit snd app]. f_equal.
  destruct (stack self) as [s|frames].
  - assert (E : (- Z.of_N s <=? 0) = true) by (apply Z.leb_le; lia).
    rewrite E. reflexivity.
  - destruct (backtrace.scanned max_depth 1 frames) as [|f rest].
    + reflexivity.
    + cbn [Z.leb Z.compare when ret calls snd].
      rewrite ?List.app_nil_r. reflexivity.
Qed.


(** When every address prints alike, a frame's entry depends on the
    frame only up to its addresses. *)
Lemma visitor_erased (f : Frame) (i : Z) :
  (forall p q, ptr_text p = ptr_text q) ->
  calls (visitor (erase_addresses f) i tt) = calls (visitor f i tt).
Proof.
  intros Hblind. unfold visitor, frame_visitor.
  repeat rewrite calls_bind.
  destruct f as [[pi|] [ps|] sym]; cbn [erase_addresses ip sp symbol option_map option_match];
    unfold print_ptr;
    rewrite ?(Hblind pi 0), ?(Hblind ps 0); reflexivity.
Qed.

Lemma scanned_map (g : Frame -> Frame) (skip : nat) (frames : list Frame) :
  backtrace.scanned max_depth skip (map g frames) =
  map g (backtrace.scanned max_depth skip frames).
Proof.
  unfold backtrace.scanned. now rewrite skipn_map, firstn_map.
Qed.

Lemma put_backtrace_erased (self1 self2 : thread) :
  (forall p q, ptr_text p = ptr_text q) ->
  erase_stack (stack self1) = erase_stack (stack self2) ->
  calls (put_backtrace ptr_text none_text frame_index max_depth self1) =
  calls (put_backtrace ptr_text none_text frame_index max_depth self2).
Proof.
  intros Hblind He. rewrite !calls_put_backtrace.
  destruct (stack self1) as [s1|fs1], (stack self2) as [s2|fs2];
    cbn [erase_stack] in He; try discriminate He; [reflexivity|].
  injection He as He.
  apply (f_equal (backtrace.scanned max_depth 1)) in He.
  rewrite !scanned_map in He.
  destruct (backtrace.scanned max_depth 1 fs1) as [|f1 r1],
           (backtrace.scanned max_depth 1 fs2) as [|f2 r2];
    cbn [map] in He; try discriminate He; [reflexivity|].
  apply (f_equal (hd f1)) in He. cbn [hd] in He.
  rewrite <- (visitor_erased f1 (frame_index 0) Hblind).
  rewrite <- (visitor_erased f2 (frame_index 0) Hblind).
  rewrite He. reflexivity.
Qed.

End BacktraceBlock.


Section BacktraceProperties.

Variable kThreadIdHash : thread_id -> N.
Variable ptr_text : Z -> text.
Variable none_text : text.
Variable frame_index : nat -> Z.
Variable max_depth : nat.


(** C9: two invocations with the same message, payload and location, the
    thread identity stubbed to one constant, write the same bytes, whatever
    the threads and the prior state of the process -- addresses left out of
    account: every address prints alike, and when the backtrace is compiled
    in the two stacks agree up to the addresses in their frames. *)
Theorem panic_default_deterministic
    (STX_ENABLE_PANIC_BACKTRACE : bool) (stub : N)
    (self1 self2 : thread) info payload location (w1 w2 : world) :
  (forall p q, ptr_text p = ptr_text q) ->
  (STX_ENABLE_PANIC_BACKTRACE = true ->
   erase_stack (stack self1) = erase_stack (stack self2)) ->
  stderr_lock w1 = None -> aborted w1 = false ->
  stderr_lock w2 = None -> aborted w2 = false ->
  exists emitted w1' w2',
    run (tid self1)
        (calls (panic_default STX_ENABLE_PANIC_BACKTRACE (fun _ => stub)
                  ptr_text none_text frame_index max_depth
                  self1 info payload location)) w1 = Returned w1'
    /\ run (tid self2)
           (calls (panic_default STX_ENABLE_PANIC_BACKTRACE (fun _ => stub)
                     ptr_text none_text frame_index max_depth
                     self2 info payload location)) w2 = Returned w2'
    /\ sink_text w1' = sink_text w1 ++ emitted
    /\ sink_text w2' = sink_text w2 ++ emitted.
Proof.
  intros Hblind Hstack Hl1 Ha1 Hl2 Ha2.
  exists (report_text stub info payload location ++
          if STX_ENABLE_PANIC_BACKTRACE
          then backtrace_text ptr_text none_text frame_index max_depth self1
          else []).
  eexists. eexists.
  split; [apply run_panic_default; assumption|].
  split; [apply run_panic_default; assumption|].
  rewrite !sink_after_handler. split; [reflexivity|].
  destruct STX_ENABLE_PANIC_BACKTRACE; [|reflexivity].
  unfold backtrace_text.
  rewrite (put_backtrace_erased ptr_text none_text frame_index max_depth
             self1 self2 Hblind (Hstack eq_refl)).
  reflexivity.
Qed.

End BacktraceProperties.

(** * Interleaved threads *)

Lemma length_update {A} (i : nat) (x : A) (l : list A) :
  List.length (update i x l) = List.length l.
Proof.
  revert i. induction l as [|a l IH]; intros [|i]; simpl; auto.
Qed.

Lemma nth_error_update_eq {A} (i : nat) (x y : A) (l : list A) :
  nth_error l i = Some y -> nth_error (update i x l) i = Some x.
Proof.
  revert i. induction l as [|a l IH]; intros [|i]; simpl; try discriminate; auto.
Qed.

Lemma nth_error_update_neq {A} (i k : nat) (x : A) (l : list A) :
  i <> k -> nth_error (update i x l) k = nth_error l k.
Proof.
  revert i k. induction l as [|a l IH]; intros [|i] [|k] H; simpl; auto.
  congruence.
Qed.

Lemma sink_text_append (s : text) (w : world) :
  sink_text (append s w) = sink_text w ++ s.
Proof. unfold sink_text, append. simpl. apply app_assoc. Qed.

Lemma sink_text_flush (w : world) : sink_text (flush w) = sink_text w.
Proof. unfold sink_text, flush. simpl. now rewrite List.app_nil_r. Qed.

(** A call on the stream always proceeds in a live process; it leaves the
    mutex alone and appends what it writes. *)
Lemma exec_stream_call (t : thread_id) (c : call) (w w' : world) :
  is_stream_call c = true ->
  exec t c w = Some w' ->
  stderr_lock w' = stderr_lock w /\
  aborted w' = aborted w /\
  sink_text w' = sink_text w ++ written c.
Proof.
  unfold exec. destruct (aborted w) eqn:Ha; [discriminate|].
  destruct c; try discriminate; intros _ E; inversion E; subst w';
    repeat split; auto using sink_text_append.
Qed.

Lemma waiting_not_nil (body : list call) : waiting body <> [].
Proof. discriminate. Qed.

Lemma critical_section_waiting (body : list call) :
  critical_section (waiting body) = body.
Proof. unfold critical_section, waiting. cbn [tl]. apply removelast_last. Qed.

Section Interleaving.

Variable base : text.
Variable bodies : list (list call).
Hypothesis bodies_stream :
  Forall (fun b => forallb is_stream_call b = true) bodies.

Lemma body_stream (j : nat) :
  forallb is_stream_call (nth j bodies []) = true.
Proof.
  destruct (nth_in_or_default j bodies []) as [H|H].
  - rewrite Forall_forall in bodies_stream. now apply bodies_stream.
  - rewrite H. reflexivity.
Qed.

Lemma outside_mono (fin : list nat) (j i : nat) (rest : list call) :
  outside bodies fin i rest -> outside bodies (fin ++ [j]) i rest.
Proof.
  intros [H|[H1 H2]]; [left; exact H | right; split; auto].
  apply in_or_app. now left.
Qed.

(** Every scheduled call keeps the threads coherent with the sink. *)
Lemma coherent_step (i : nat) (pool pool' : list task) (w w' : world) :
  coherent base bodies pool w ->
  step_at i (pool, w) = Some (pool', w') ->
  coherent base bodies pool' w'.
Proof.
  intros (Ha & Hlen & fin & Hnd & Hfin & Hlock) Hstep.
  unfold step_at in Hstep.
  destruct (nth_error pool i) as [[t [|c rest]]|] eqn:Hi; try discriminate.
  destruct (exec t c w) as [w1|] eqn:He; [|discriminate].
  inversion Hstep; subst pool' w'; clear Hstep.
  assert (Hnot : ~ In i fin).
  { intros Hin. destruct (Hfin i Hin) as [t' E]. rewrite Hi in E. discriminate. }
  assert (Hkeep : forall k, In k fin ->
            exists t', nth_error (update i (t, rest) pool) k = Some (t', [])).
  { intros k Hk. rewrite nth_error_update_neq; [now apply Hfin|].
    intros ->. contradiction. }
  destruct (stderr_lock w) as [o|] eqn:Hl.
  - destruct Hlock as (j & done & todo & Hj & Hbody & Hsink & Hothers).
    destruct (Nat.eq_dec i j) as [Eij|Hij].
    + subst j. rewrite Hi in Hj. inversion Hj as [[Ho Hrest]]. subst o.
      destruct todo as [|c' todo'].
      * (* the thread inside unlocks *)
        cbn [app] in Hrest. inversion Hrest; subst c rest.
        unfold exec in He. rewrite Ha, Hl, Nat.eqb_refl in He.
        inversion He; subst w1. clear He.
        split; [exact Ha|]. split; [now rewrite length_update|].
        exists (fin ++ [i]). split.
        { apply (Permutation_NoDup (Permutation_cons_append fin i)).
          constructor; assumption. }
        split.
        { intros k Hk. apply in_app_or in Hk as [Hk|[<-|[]]]; [now apply Hkeep|].
          exists t. eapply nth_error_update_eq, Hi. }
        cbn [stderr_lock set_lock]. split.
        { change (sink_text (set_lock None w)) with (sink_text w).
          rewrite Hsink, flat_map_app. cbn [flat_map].
          unfold slot_text at 3. rewrite Hbody.
          rewrite !List.app_nil_r, <- app_assoc. reflexivity. }
        intros k t' rest' Hk.
        destruct (Nat.eq_dec i k) as [<-|Hik].
        { rewrite (nth_error_update_eq _ _ _ _ Hi) in Hk.
          inversion Hk; subst. right. split; [reflexivity|].
          apply in_or_app. right. now left. }
        rewrite nth_error_update_neq in Hk by assumption.
        apply outside_mono. eapply Hothers; eauto.
      * (* the thread inside makes a call on the stream *)
        cbn [app] in Hrest. inversion Hrest; subst c' rest.
        assert (Hc : is_stream_call c = true).
        { pose proof (body_stream i) as Hb. rewrite Hbody in Hb.
          rewrite forallb_app in Hb. apply andb_prop in Hb as [_ Hb].
          cbn [forallb] in Hb. now apply andb_prop in Hb as [Hb _]. }
        destruct (exec_stream_call _ _ _ _ Hc He) as (Hl1 & Ha1 & Hs1).
        split; [congruence|]. split; [now rewrite length_update|].
        exists fin. split; [exact Hnd|]. split; [exact Hkeep|].
        rewrite Hl1, Hl.
        exists i, (done ++ [c]), todo'.
        split; [eapply nth_error_update_eq, Hi|].
        split; [now rewrite <- app_assoc|].
        split.
        { rewrite Hs1, Hsink, written_all_app.
          cbn [written_all flat_map]. rewrite List.app_nil_r.
          now rewrite <- !app_assoc. }
        intros k t' rest' Hik Hk.
        rewrite nth_error_update_neq in Hk by congruence.
        eapply Hothers; eauto.
    + (* a thread outside can only try to lock, and is blocked *)
      destruct (Hothers i t (c :: rest) Hij Hi) as [Hw|[Hw _]]; [|discriminate].
      unfold waiting in Hw. inversion Hw; subst c.
      unfold exec in He. rewrite Ha, Hl in He. discriminate.
  - (* the mutex is free: a waiting thread takes it *)
    destruct Hlock as (Hsink & Hothers).
    destruct (Hothers i t (c :: rest) Hi) as [Hw|[Hw _]]; [|discriminate].
    unfold waiting in Hw. inversion Hw; subst c rest.
    unfold exec in He. rewrite Ha, Hl in He. inversion He; subst w1. clear He.
    split; [exact Ha|]. split; [now rewrite length_update|].
    exists fin. split; [exact Hnd|]. split; [exact Hkeep|].
    cbn [stderr_lock set_lock].
    exists i, [], (nth i bodies []).
    split; [eapply nth_error_update_eq, Hi|].
    split; [reflexivity|].
    split.
    { change (sink_text (set_lock (Some t) w)) with (sink_text w).
      rewrite Hsink. cbn [written_all flat_map]. now rewrite List.app_nil_r. }
    intros k t' rest' Hik Hk.
    rewrite nth_error_update_neq in Hk by congruence.
    eapply Hothers; eauto.
Qed.

Lemma coherent_run (sched : list nat) :
  forall pool w pool' w',
    coherent base bodies pool w ->
    run_schedule sched (pool, w) = Some (pool', w') ->
    coherent base bodies pool' w'.
Proof.
  induction sched as [|i sched IH]; intros pool w pool' w' Hc Hrun.
  - inversion Hrun; subst. exact Hc.
  - cbn [run_schedule] in Hrun.
    destruct (step_at i (pool, w)) as [[pool1 w1]|] eqn:Hs; [|discriminate].
    eapply IH; [|exact Hrun]. eapply coherent_step; eauto.
Qed.

(** Threads that have not started, with the mutex free. *)
Lemma coherent_start (pool : list task) (w : world) :
  Forall2 (fun (tk : task) b => snd tk = waiting b) pool bodies ->
  stderr_lock w = None ->
  aborted w = false ->
  sink_text w = base ->
  coherent base bodies pool w.
Proof.
  intros Hpool Hl Ha Hs.
  split; [exact Ha|]. split; [eapply Forall2_length; eauto|].
  exists []. split; [constructor|]. split; [intros i []|].
  rewrite Hl. split.
  - cbn [flat_map]. now rewrite List.app_nil_r.
  - intros i t rest Hi. left.
    clear - Hpool Hi. revert i Hi.
    induction Hpool as [|tk b pool' bodies' Hhd Htl IH]; intros [|i] Hi;
      cbn [nth_error] in Hi; try discriminate.
    + inversion Hi; subst tk. exact Hhd.
    + cbn [nth]. now apply IH.
Qed.

(** When all threads are through, the sink holds [base] followed by
    the texts of all slots, each whole, in the order the threads left. *)
Lemma coherent_finished (pool : list task) (w : world) :
  coherent base bodies pool w ->
  finished pool ->
  exists order,
    Permutation order (seq 0 (List.length bodies)) /\
    sink_text w = base ++ flat_map (slot_text bodies) order.
Proof.
  intros (Ha & Hlen & fin & Hnd & Hfin & Hlock) Hdone.
  unfold finished in Hdone. rewrite Forall_forall in Hdone.
  destruct (stderr_lock w) as [o|].
  - destruct Hlock as (j & done & todo & Hj & _).
    apply nth_error_In, Hdone in Hj. cbn [snd] in Hj.
    destruct todo; discriminate Hj.
  - destruct Hlock as (Hsink & Hothers).
    exists fin. split; [|exact Hsink].
    apply NoDup_Permutation; [assumption | apply seq_NoDup |].
    intros i. rewrite in_seq. split.
    + intros Hin. destruct (Hfin i Hin) as [t Hi].
      assert (nth_error pool i <> None) as Hlt by congruence.
      apply nth_error_Some in Hlt. lia.
    + intros [_ Hlt]. cbn [Nat.add] in Hlt. rewrite <- Hlen in Hlt.
      destruct (nth_error pool i) as [[t rest]|] eqn:Hi.
      * destruct (Hothers i t rest Hi) as [Hw|[_ Hin]]; [|exact Hin].
        apply nth_error_In, Hdone in Hi. cbn [snd] in Hi.
        subst rest. discriminate Hw.
      * apply nth_error_None in Hi. lia.
Qed.

(** Whether all threads are through can be decided. *)
Lemma finished_dec (pool : list task) : {finished pool} + {~ finished pool}.
Proof.
  unfold finished. apply Forall_dec. intros [t rest]. cbn [snd].
  destruct rest; [left; reflexivity | right; discriminate].
Qed.

(** No deadlock: as long as some thread is not through, some thread can
    make its next call. *)
Lemma coherent_progress (pool : list task) (w : world) :
  coherent base bodies pool w ->
  ~ finished pool ->
  exists i cfg, step_at i (pool, w) = Some cfg.
Proof.
  intros (Ha & Hlen & fin & Hnd & Hfin & Hlock) Hnot.
  destruct (stderr_lock w) as [o|] eqn:Hl.
  - destruct Hlock as (j & done & todo & Hj & Hbody & Hsink & Hothers).
    exists j. unfold step_at. rewrite Hj.
    destruct todo as [|c todo']; cbn [app].
    + unfold exec. rewrite Ha, Hl, Nat.eqb_refl. eexists. reflexivity.
    + assert (Hc : is_stream_call c = true).
      { pose proof (body_stream j) as Hb. rewrite Hbody in Hb.
        rewrite forallb_app in Hb. apply andb_prop in Hb as [_ Hb].
        cbn [forallb] in Hb. now apply andb_prop in Hb as [Hb _]. }
      unfold exec. rewrite Ha.
      destruct c; try discriminate Hc; eexists; reflexivity.
  - destruct Hlock as (Hsink & Hothers).
    unfold finished in Hnot. rewrite <- Exists_Forall_neg in Hnot.
    + apply Exists_exists in Hnot as ([t rest] & Hin & Hne). cbn [snd] in Hne.
      apply In_nth_error in Hin as [i Hi].
      destruct (Hothers i t rest Hi) as [Hw|[Hw _]]; [|contradiction].
      exists i. unfold step_at. rewrite Hi, Hw. unfold waiting.
      unfold exec. rewrite Ha, Hl. eexists. reflexivity.
    + intros [t rest]. cbn [snd].
      destruct rest; [left; reflexivity | right; discriminate].
Qed.

Lemma remaining_step (i : nat) (pool pool' : list task) (w w' : world) :
  step_at i (pool, w) = Some (pool', w') ->
  remaining pool = S (remaining pool').
Proof.
  unfold step_at.
  destruct (nth_error pool i) as [[t [|c rest]]|] eqn:Hi; try discriminate.
  destruct (exec t c w) as [w1|]; [|discriminate].
  intros E. inversion E; subst pool' w'. clear E.
  revert i Hi. induction pool as [|tk pool IH]; intros [|i] Hi;
    cbn [nth_error] in Hi; try discriminate.
  - inversion Hi; subst tk. reflexivity.
  - cbn [update].
    change (remaining (tk :: pool))
      with (List.length (snd tk) + remaining pool)%nat.
    change (remaining (tk :: update i (t, rest) pool))
      with (List.length (snd tk) + remaining (update i (t, rest) pool))%nat.
    rewrite (IH i Hi). apply Nat.add_succ_r.
Qed.

Lemma remaining_zero (pool : list task) : remaining pool = 0%nat -> finished pool.
Proof.
  unfold remaining, finished. induction pool as [|[t rest] pool IH]; intros H.
  - constructor.
  - cbn [map list_sum snd] in H. apply Nat.eq_add_0 in H as [H1 H2].
    constructor; [|now apply IH].
    cbn [snd]. now apply length_zero_iff_nil.
Qed.

(** Some interleaving runs all threads to their end. *)
Lemma coherent_completes (n : nat) :
  forall pool w,
    remaining pool = n ->
    coherent base bodies pool w ->
    exists sched pool' w',
      run_schedule sched (pool, w) = Some (pool', w') /\ finished pool'.
Proof.
  induction n as [|n IH]; intros pool w Hn Hc.
  - exists [], pool, w. split; [reflexivity | now apply remaining_zero].
  - destruct (finished_dec pool) as [Hf|Hf].
    + exists [], pool, w. split; [reflexivity | exact Hf].
    + destruct (coherent_progress pool w Hc Hf) as (i & [pool1 w1] & Hs).
      pose proof (remaining_step _ _ _ _ _ Hs) as Hr.
      destruct (IH pool1 w1) as (sched & pool' & w' & Hrun & Hdone).
      * rewrite Hn in Hr. now inversion Hr.
      * eapply coherent_step; eauto.
      * exists (i :: sched), pool', w'. split; [|exact Hdone].
        cbn [run_schedule]. rewrite Hs. exact Hrun.
Qed.

End Interleaving.

Lemma map_nth_seq {A} (l : list A) (d : A) :
  map (fun i => nth i l d) (seq 0 (List.length l)) = l.
Proof.
  induction l as [|a l IH]; [reflexivity|].
  cbn [List.length seq map nth]. f_equal.
  rewrite <- seq_shift, map_map. exact IH.
Qed.

Lemma slot_texts (bodies : list (list call)) :
  map (slot_text bodies) (seq 0 (List.length bodies)) = map written_all bodies.
Proof.
  rewrite <- (map_nth_seq (map written_all bodies) []) at 1.
  rewrite length_map. apply map_ext. intros i. unfold slot_text.
  symmetry. exact (map_nth written_all bodies [] i).
Qed.

Section ConcurrentPanics.

Variable STX_ENABLE_PANIC_BACKTRACE : bool.
Variable kThreadIdHash : thread_id -> N.
Variable ptr_text : Z -> text.
Variable none_text : text.
Variable frame_index : nat -> Z.
Variable max_depth : nat.

Let invoke' :=
  invoke STX_ENABLE_PANIC_BACKTRACE kThreadIdHash ptr_text none_text
    frame_index max_depth.
Let spawn' :=
  spawn STX_ENABLE_PANIC_BACKTRACE kThreadIdHash ptr_text none_text
    frame_index max_depth.
Let block' :=
  block STX_ENABLE_PANIC_BACKTRACE kThreadIdHash ptr_text none_text
    frame_index max_depth.

Let body_of (i : invocation) : list call := critical_section (calls (invoke' i)).

(** An invocation is a critical section of calls on the stream, between
    lock and unlock. *)
Lemma invoke_waiting (i : invocation) :
  calls (invoke' i) = waiting (body_of i)
  /\ forallb is_stream_call (body_of i) = true
  /\ written_all (body_of i) = block' i.
Proof.
  unfold body_of, block', block. fold invoke'.
  destruct (panic_default_anatomy STX_ENABLE_PANIC_BACKTRACE kThreadIdHash
              ptr_text none_text frame_index max_depth
              (inv_self i) (inv_info i) (inv_payload i) (inv_location i))
    as (report & bt & Hcalls & Hr & Hb & _).
  assert (E : calls (invoke' i) = waiting (report ++ Fflush :: bt)).
  { unfold invoke', invoke. rewrite Hcalls. unfold waiting.
    now rewrite <- app_assoc. }
  rewrite E, critical_section_waiting.
  split; [reflexivity|]. split.
  - rewrite forallb_app, (writes_are_stream_calls _ Hr).
    cbn [forallb andb]. rewrite (writes_are_stream_calls _ Hb). reflexivity.
  - unfold waiting.
    change (MutexLock :: (report ++ Fflush :: bt) ++ [MutexUnlock])
      with ([MutexLock] ++ (report ++ Fflush :: bt) ++ [MutexUnlock]).
    rewrite !written_all_app. cbn [written_all flat_map written app].
    now rewrite !List.app_nil_r.
Qed.

(** C6: any number of threads enter the handler and their calls are
    interleaved in any way the mutex allows.  Some interleaving runs them all
    to their end, and whenever all of them are through, the sink holds what
    it held before followed by the complete diagnostic blocks of all the
    invocations, each in one piece, in some order. *)
Theorem concurrent_panics_do_not_interleave
    (invocations : list invocation) (w : world) :
  stderr_lock w = None ->
  aborted w = false ->
  (exists sched pool' w',
     run_schedule sched (map spawn' invocations, w) = Some (pool', w')
     /\ finished pool')
  /\ (forall sched pool' w',
        run_schedule sched (map spawn' invocations, w) = Some (pool', w') ->
        finished pool' ->
        exists blocks,
          Permutation blocks (map block' invocations)
          /\ sink_text w' = sink_text w ++ List.concat blocks).
Proof.
  intros Hl Ha.
  set (bodies := map body_of invocations).
  assert (Hstream : Forall (fun b => forallb is_stream_call b = true) bodies).
  { subst bodies. apply Forall_map, Forall_forall. intros i _.
    apply (invoke_waiting i). }
  assert (Hstart : coherent (sink_text w) bodies (map spawn' invocations) w).
  { apply coherent_start; auto. subst bodies.
    assert (Hall : forall l, Forall2 (fun (tk : task) b => snd tk = waiting b)
                               (map spawn' l) (map body_of l)).
    { intros l. induction l as [|i l IH]; constructor; [|exact IH].
      unfold spawn', spawn. cbn [snd]. apply (invoke_waiting i). }
    apply Hall. }
  split.
  { eapply coherent_completes; [exact Hstream | reflexivity | exact Hstart]. }
  intros sched pool' w' Hrun Hdone.
  pose proof (coherent_run _ _ Hstream _ _ _ _ _ Hstart Hrun) as Hend.
  destruct (coherent_finished _ _ _ _ Hend Hdone) as (order & Hperm & Hsink).
  exists (map (slot_text bodies) order). split.
  - apply (Permutation_map (slot_text bodies)) in Hperm.
    rewrite slot_texts in Hperm. subst bodies.
    rewrite map_map in Hperm.
    erewrite (map_ext _ block') in Hperm; [exact Hperm|].
    intros i. apply (invoke_waiting i).
  - rewrite Hsink, flat_map_concat_map. reflexivity.
Qed.

End ConcurrentPanics.

(** * The handler on sample inputs *)

(** C1, the failing input: on the panic "disk full" raised in src/main.cc,
    [panic_default] returns to its caller with the process alive instead of
    terminating it; no run of it ends in termination. *)
Lemma panic_default_does_not_terminate :
  (exists w',
     Sample.run_alone false Sample.inv0 world0 = Returned w' /\ aborted w' = false)
  /\ ~ (exists w', Sample.run_alone false Sample.inv0 world0 = Terminated w').
Proof.
  split.
  - eexists. split; vm_compute; reflexivity.
  - intros [w' H]. vm_compute in H. discriminate H.
Qed.

Lemma panic_default_returns_to_caller_witness :
  stderr_lock world0 = None /\ aborted world0 = false /\
  exists w',
    Sample.run_alone false Sample.inv0 world0 = Returned w'
    /\ aborted w' = false
    /\ stderr_lock w' = None
    /\ existsb is_abort (calls (Sample.handler false Sample.inv0)) = false.
Proof.
  split; [reflexivity|]. split; [reflexivity|].
  apply (panic_default_returns_to_caller false Sample.hash Sample.ptr Sample.none
           Sample.index Sample.depth
           Sample.t0 (lit "disk full") Sample.no_payload Sample.main_cc world0);
    reflexivity.
Defined.

Lemma panic_default_message_and_payload_witness :
  stderr_lock world0 = None /\ aborted world0 = false /\
  exists w',
    Sample.run_alone false Sample.inv1 world0 = Returned w'
    /\ (data Sample.two_bytes = [] ->
        exists rest,
          sink_text w' =
            sink_text world0 ++
            Grammar.preamble (thread_identity_text (Sample.hash 1%nat)) ++
            lit "bad index" ++ lit "' at function: '" ++ rest)
    /\ (data Sample.two_bytes <> [] ->
        exists rest,
          sink_text w' =
            sink_text world0 ++
            Grammar.preamble (thread_identity_text (Sample.hash 1%nat)) ++
            lit "bad index" ++ lit ": " ++ data Sample.two_bytes ++
            lit "' at function: '" ++ rest).
Proof.
  split; [reflexivity|]. split; [reflexivity|].
  apply (panic_default_message_and_payload false Sample.hash Sample.ptr Sample.none
           Sample.index Sample.depth
           Sample.t1 (lit "bad index") Sample.two_bytes Sample.main_cc world0);
    reflexivity.
Defined.

(** The scenario of the specification: the payload bytes 0x01 0x02 follow
    the message after [": "]. *)
Example bad_index_scenario :
  exists w',
    Sample.run_alone false Sample.inv1 world0 = Returned w'
    /\ sink_text w' =
         nl ++ lit "thread with hash: '15729502191765196471' panicked with: 'bad index: "
         ++ [x01; x02] ++ lit "' at function: 'main' [src/main.cc:5:1]" ++ nl.
Proof. eexists. split; vm_compute; reflexivity. Qed.

(** The scenario of the specification: no payload, backtraces disabled:
    one line, no payload segment, no backtrace block. *)
Example disk_full_scenario :
  exists w',
    Sample.run_alone false Sample.inv0 world0 = Returned w'
    /\ sink_text w' =
         nl ++ lit "thread with hash: '15729502191765196471' panicked with: 'disk full' at function: 'main' [src/main.cc:5:1]" ++ nl.
Proof. eexists. split; vm_compute; reflexivity. Qed.

(** C3, the failing input: a location whose line is 2147483648, a value of
    its unsigned type, is rendered by ["%d"] as -2147483648, not as its
    decimal representation 2147483648. *)
Theorem panic_default_far_line_renders_negative :
  valid_location Sample.far_line
  /\ field_text (line Sample.far_line) = lit "-2147483648"
  /\ Fmt.decimal (Z.to_N (line Sample.far_line)) = lit "2147483648"
  /\ exists w',
       Sample.run_alone false Sample.inv_far world0 = Returned w'
       /\ sink_text w' =
            nl ++ lit "thread with hash: '15729502191765196471' panicked with: 'disk full' at function: 'f' [gen.cc:-2147483648:1]" ++ nl.
Proof.
  split; [vm_compute; intuition discriminate|].
  split; [vm_compute; reflexivity|].
  split; [vm_compute; reflexivity|].
  eexists. split; vm_compute; reflexivity.
Qed.

Lemma panic_default_field_order_witness :
  stderr_lock Sample.world1 = None /\ aborted Sample.world1 = false /\
  exists w',
    Sample.run_alone true Sample.inv1 Sample.world1 = Returned w'
    /\ sink_text w' =
         sink_text Sample.world1 ++
         (nl ++ lit "thread with hash: '" ++
          thread_identity_text (Sample.hash 1%nat) ++
          lit "' panicked with: '" ++
          lit "bad index" ++
          (if empty (data Sample.two_bytes) then []
           else lit ": " ++ data Sample.two_bytes) ++
          lit "' at function: '" ++
          function_name Sample.main_cc ++
          lit "' [" ++
          file_name Sample.main_cc ++
          lit ":" ++
          field_text (line Sample.main_cc) ++
          lit ":" ++
          field_text (column Sample.main_cc) ++
          lit "]" ++ nl) ++
         backtrace_text Sample.ptr Sample.none Sample.index Sample.depth Sample.t1.
Proof.
  split; [reflexivity|]. split; [reflexivity|].
  apply (panic_default_field_order true Sample.hash Sample.ptr Sample.none
           Sample.index Sample.depth
           Sample.t1 (lit "bad index") Sample.two_bytes Sample.main_cc Sample.world1);
    reflexivity.
Defined.

(** C5 as stated does not hold: with backtrace capture compiled in, the
    handler writes the backtrace block after its only flush. *)
Lemma backtrace_written_after_flush :
  writes_precede_flush (calls (Sample.handler true Sample.inv0)) &&
  flush_precedes_unlock (calls (Sample.handler true Sample.inv0)) = false
  /\ exists before after,
       calls (Sample.handler true Sample.inv0) = before ++ Fflush :: after
       /\ existsb is_write after = true
       /\ existsb is_flush after = false.
Proof.
  split; [vm_compute; reflexivity|].
  exists (firstn 23 (calls (Sample.handler true Sample.inv0))),
         (skipn 24 (calls (Sample.handler true Sample.inv0))).
  split; [vm_compute; reflexivity|].
  split; vm_compute; reflexivity.
Qed.



Lemma trace_visits_exactly_k_frames_witness :
  (1 <= 2)%nat /\
  firstn 2 (replies Sample.index (More.dotting 2) 0
              (backtrace.scanned Sample.depth 0 More.frames) 0%nat)
    = repeat true (2 - 1) ++ [false] /\
  result (backtrace.trace Sample.index Sample.depth (More.dotting 2) 0
            (Walk More.frames) 0%nat) = Z.of_nat 2
  /\ calls (backtrace.trace Sample.index Sample.depth (More.dotting 2) 0
              (Walk More.frames) 0%nat) =
       calls (invoke_on Sample.index (More.dotting 2) 0
                (firstn 2 (skipn 0 More.frames)) 0%nat)
  /\ snd (result (backtrace.trace_log Sample.index Sample.depth (More.dotting 2) 0
                    (Walk More.frames) 0%nat)) =
       result (invoke_on Sample.index (More.dotting 2) 0
                 (firstn 2 (skipn 0 More.frames)) 0%nat)
  /\ fst (result (backtrace.trace_log Sample.index Sample.depth (More.dotting 2) 0
                    (Walk More.frames) 0%nat)) =
       combine (firstn 2 (skipn 0 More.frames)) (repeat true (2 - 1) ++ [false]).
Proof.
  split; [apply le_S, le_n|]. split; [reflexivity|].
  apply (trace_visits_exactly_k_frames Sample.index Sample.depth
           (More.dotting 2) 0 More.frames 0%nat 2);
    [apply le_S, le_n | reflexivity].
Defined.

(** On a stack of three frames the visitor that stops at the second frame
    has been invoked twice: it has counted two frames and written two dots. *)
Example dotting_two_sees_two_frames :
  snd (result (backtrace.trace_log Sample.index Sample.depth (More.dotting 2) 0
                 (Walk More.frames) 0%nat)) = 2%nat
  /\ calls (backtrace.trace Sample.index Sample.depth (More.dotting 2) 0
              (Walk More.frames) 0%nat) = [Fputc "."%byte; Fputc "."%byte].
Proof. split; reflexivity. Qed.

Lemma panic_default_deterministic_witness :
  (forall p q, Sample.masked p = Sample.masked q) /\
  (true = true -> erase_stack (stack Sample.t0) = erase_stack (stack Sample.t2)) /\
  exists emitted w1' w2',
    run (tid Sample.t0)
        (calls (panic_default true (fun _ => 7%N) Sample.masked Sample.none
                  Sample.index Sample.depth
                  Sample.t0 (lit "disk full") Sample.no_payload Sample.main_cc))
        world0 = Returned w1'
    /\ run (tid Sample.t2)
           (calls (panic_default true (fun _ => 7%N) Sample.masked Sample.none
                     Sample.index Sample.depth
                     Sample.t2 (lit "disk full") Sample.no_payload Sample.main_cc))
           Sample.world1 = Returned w2'
    /\ sink_text w1' = sink_text world0 ++ emitted
    /\ sink_text w2' = sink_text Sample.world1 ++ emitted.
Proof.
  split; [reflexivity|]. split; [reflexivity|].
  apply (panic_default_deterministic Sample.masked Sample.none Sample.index
           Sample.depth true 7%N Sample.t0 Sample.t2
           (lit "disk full") Sample.no_payload Sample.main_cc world0 Sample.world1);
    reflexivity.
Defined.

Lemma panic_default_lock_discipline_witness :
  exists w',
    run (tid Sample.t0)
        (calls (panic_default false Sample.hash Sample.ptr Sample.none
                  Sample.index Sample.depth
                  Sample.t0 (lit "disk full") Sample.no_payload Sample.main_cc))
        world0 = Returned w'
    /\ stderr_lock w' = None.
Proof.
  eexists. split.
  - apply run_panic_default; reflexivity.
  - eapply (proj2 (proj2 (proj2
      (panic_default_lock_discipline false Sample.hash Sample.ptr Sample.none
         Sample.index Sample.depth
         Sample.t0 (lit "disk full") Sample.no_payload Sample.main_cc)))
      world0).
    apply run_panic_default; reflexivity.
Defined.

(** The other thread cannot enter while one is inside. *)
Example second_thread_is_blocked :
  exists cfg,
    step_at 0 (Sample.pool, world0) = Some cfg
    /\ step_at 1 cfg = None.
Proof. eexists. split; vm_compute; reflexivity. Qed.

Lemma concurrent_panics_do_not_interleave_witness :
  stderr_lock world0 = None /\ aborted world0 = false /\
  run_schedule Sample.schedule (Sample.pool, world0) = Some Sample.final /\
  finished (fst Sample.final) /\
  exists blocks,
    Permutation blocks
      (map (block false Sample.hash Sample.ptr Sample.none Sample.index Sample.depth)
           [Sample.inv0; Sample.inv1])
    /\ sink_text (snd Sample.final) = sink_text world0 ++ List.concat blocks.
Proof.
  assert (Hrun : run_schedule Sample.schedule (Sample.pool, world0)
                 = Some (fst Sample.final, snd Sample.final))
    by (vm_compute; reflexivity).
  assert (Hfin : finished (fst Sample.final))
    by (vm_compute; repeat constructor).
  split; [reflexivity|]. split; [reflexivity|].
  split; [vm_compute; reflexivity|]. split; [exact Hfin|].
  exact (proj2 (concurrent_panics_do_not_interleave false Sample.hash Sample.ptr
                  Sample.none Sample.index Sample.depth
                  [Sample.inv0; Sample.inv1] world0 eq_refl eq_refl)
           Sample.schedule (fst Sample.final) (snd Sample.final) Hrun Hfin).
Defined.

(** In that schedule the second thread's block comes first. *)
Example blocks_in_finishing_order :
  sink_text (snd Sample.final) =
  block false Sample.hash Sample.ptr Sample.none Sample.index Sample.depth Sample.inv1 ++
  block false Sample.hash Sample.ptr Sample.none Sample.index Sample.depth Sample.inv0.
Proof. vm_compute. reflexivity. Qed.

(** * Further properties of the handler *)

Lemma decimal_length_128 (h : N) :
  (h < 340282366920938463463374607431768211456)%N ->
  (List.length (Fmt.decimal h) <= 131)%nat.
Proof.
  intros H. unfold Fmt.decimal. rewrite lit_length.
  destruct h as [|p].
  - cbn. repeat constructor.
  - assert (Hs : (Pos.size_nat p <= 129)%nat).
    { apply (Pos.size_nat_monotone p 340282366920938463463374607431768211456).
      apply N2Z.inj_lt in H.
      unfold Pos.lt. rewrite Pos2Z.inj_compare. exact H. }
    clear H. cbn [N.to_uint].
    pose proof (nilzero_length (Pos.to_uint p)) as H1.
    pose proof (pos_digits p) as H2.
    eapply Nat.le_trans; [exact H1|].
    eapply Nat.le_trans; [apply le_n_S, (Nat.le_trans _ _ _ H2 Hs)|].
    apply Nat.leb_le. reflexivity.
Qed.

(** X1: [log_buffer] is large enough for the thread hash: for every hash
    below 2^128 the text read back from the buffer is the whole decimal
    rendering, which leaves room for the terminator. *)
Theorem thread_hash_fits_log_buffer (h : N) :
  (h < 340282366920938463463374607431768211456)%N ->
  Fmt.snprintf panic_util.kFormatBufferSize (Fmt.pct_zu h) = Fmt.decimal h
  /\ (List.length (Fmt.decimal h) < panic_util.kFormatBufferSize)%nat.
Proof.
  intros H. split.
  - apply (thread_identity_decimal h H).
  - pose proof (decimal_length_128 h H) as L.
    unfold panic_util.kFormatBufferSize.
    eapply Nat.le_lt_trans; [exact L|]. apply Nat.ltb_lt. reflexivity.
Qed.

Lemma thread_hash_fits_log_buffer_witness :
  (More.max_size_t < 340282366920938463463374607431768211456)%N /\
  Fmt.snprintf panic_util.kFormatBufferSize (Fmt.pct_zu More.max_size_t)
    = Fmt.decimal More.max_size_t
  /\ (List.length (Fmt.decimal More.max_size_t) < panic_util.kFormatBufferSize)%nat.
Proof.
  split; [reflexivity|].
  apply (thread_hash_fits_log_buffer More.max_size_t). reflexivity.
Defined.

(** X2: [log_buffer] is large enough for a line or column: whatever 32-bit
    value is passed, ["%d"] produces at most 35 characters and the buffer
    returns them all. *)
Theorem field_fits_log_buffer (x : Z) :
  Fmt.snprintf panic_util.kFormatBufferSize (Fmt.pct_d x) = Fmt.pct_d x
  /\ (List.length (Fmt.pct_d x) <= 35)%nat.
Proof.
  split; [apply snprintf_pct_d|].
  unfold Fmt.pct_d. apply signed_decimal_length.
  pose proof (as_int_range x) as H. unfold Fmt.INT_MAX in H. lia.
Qed.

(** X3: a line or column that fits in [int] is written as "unknown" when
    it is 0 and as its decimal representation otherwise. *)
Theorem field_rendering_in_int_range (f : Z) :
  0 <= f <= Fmt.INT_MAX ->
  written_all (calls (put_line_or_column f)) =
  if f =? 0 then lit "unknown" else Fmt.decimal (Z.to_N f).
Proof.
  intros H. fold (field_text f).
  destruct (Z.eqb_spec f 0) as [->|Hne].
  - reflexivity.
  - apply field_text_int. lia.
Qed.

Lemma field_rendering_in_int_range_witness :
  0 <= 5 <= Fmt.INT_MAX /\
  written_all (calls (put_line_or_column 5)) =
  if 5 =? 0 then lit "unknown" else Fmt.decimal (Z.to_N 5).
Proof.
  assert (H : 0 <= 5 <= Fmt.INT_MAX) by (split; discriminate).
  split; [exact H|]. apply (field_rendering_in_int_range 5 H).
Defined.

Lemma read_signed_decimal (z : Z) : read_int (Fmt.signed_decimal z) = Some z.
Proof.
  unfold read_int, Fmt.signed_decimal, lit.
  rewrite string_of_list_byte_of_string.
  rewrite NilZero.isi.
  - cbn [option_map]. f_equal. apply DecimalZ.of_to.
  - destruct z as [|p|p]; cbn; try discriminate.
    intros E. injection E as E. exact (DecimalPos.Unsigned.to_uint_nonnil p E).
  - destruct z as [|p|p]; cbn; try discriminate.
    intros E. injection E as E. exact (DecimalPos.Unsigned.to_uint_nonnil p E).
Qed.

Lemma as_int_inj (f g : Z) :
  0 <= f <= Fmt.UINT32_MAX -> 0 <= g <= Fmt.UINT32_MAX ->
  Fmt.as_int f = Fmt.as_int g -> f = g.
Proof.
  unfold Fmt.as_int, Fmt.UINT32_MAX. intros Hf Hg E.
  pose proof (Z.div_mod (f + 2147483648) 4294967296 ltac:(discriminate)) as Df.
  pose proof (Z.div_mod (g + 2147483648) 4294967296 ltac:(discriminate)) as Dg.
  pose proof (Z.mod_pos_bound (f + 2147483648) 4294967296 eq_refl) as Bf.
  pose proof (Z.mod_pos_bound (g + 2147483648) 4294967296 eq_refl) as Bg.
  lia.
Qed.

(** X4: the line and column fields can be read back.  A field that fits in
    [int] and is not 0 reads back, as a decimal integer, to itself; the text
    written for 0 is no number; and two different values of the field's
    unsigned 32-bit type are never written alike. *)
Theorem field_text_reads_back :
  (forall f, 0 < f <= Fmt.INT_MAX ->
             read_int (written_all (calls (put_line_or_column f))) = Some f)
  /\ read_int (written_all (calls (put_line_or_column 0))) = None
  /\ (forall f g,
        0 <= f <= Fmt.UINT32_MAX -> 0 <= g <= Fmt.UINT32_MAX ->
        written_all (calls (put_line_or_column f)) =
        written_all (calls (put_line_or_column g)) ->
        f = g).
Proof.
  assert (Hunknown : forall z, lit "unknown" <> Fmt.signed_decimal z).
  { intros z E. apply (f_equal read_int) in E.
    rewrite read_signed_decimal in E. vm_compute in E. discriminate E. }
  split; [|split].
  - intros f Hf. fold (field_text f). rewrite field_text_eq.
    destruct (Z.eqb_spec f 0) as [E|_]; [lia|].
    unfold Fmt.pct_d. rewrite as_int_small by (unfold Fmt.INT_MAX in *; lia).
    apply read_signed_decimal.
  - vm_compute. reflexivity.
  - intros f g Hf Hg. fold (field_text f) (field_text g).
    rewrite !field_text_eq.
    destruct (Z.eqb_spec f 0) as [Ef|Nf], (Z.eqb_spec g 0) as [Eg|Ng]; intros E.
    + congruence.
    + exfalso. exact (Hunknown _ E).
    + exfalso. symmetry in E. exact (Hunknown _ E).
    + unfold Fmt.pct_d in E. apply (f_equal read_int) in E.
      rewrite !read_signed_decimal in E. injection E as E.
      now apply as_int_inj.
Qed.

Lemma field_text_reads_back_witness :
  read_int (written_all (calls (put_line_or_column 2147483647))) = Some 2147483647
  /\ (written_all (calls (put_line_or_column 7)) =
      written_all (calls (put_line_or_column 7)) -> 7 = 7).
Proof.
  split.
  - apply (proj1 field_text_reads_back 2147483647). split; [reflexivity | discriminate].
  - apply (proj2 (proj2 field_text_reads_back) 7 7); split; discriminate.
Defined.

(** X5: the entry the visitor writes for a frame is one record: the index,
    two tabs, the symbol, the instruction pointer and the stack pointer, each
    replaced by the marker when absent, closed by a newline; it is written by
    write calls only, and the visitor's answer is false for every frame. *)
Theorem frame_entry_format ptr_text none_text (f : Frame) (i : Z) :
  written_all (calls (frame_visitor ptr_text none_text f i tt)) =
    lit "#" ++ Fmt.pct_d i ++ tab ++ tab ++
    match symbol f with Some sym => raw sym | None => none_text end ++
    tab ++ lit " (ip: " ++
    match ip f with Some p => ptr_text p | None => none_text end ++
    lit ", sp: " ++
    match sp f with Some p => ptr_text p | None => none_text end ++
    lit ")" ++ nl
  /\ forallb is_write (calls (frame_visitor ptr_text none_text f i tt)) = true
  /\ result (frame_visitor ptr_text none_text f i tt) = (false, tt).
Proof.
  split; [|split; [apply visitor_writes | apply visitor_result]].
  unfold frame_visitor. repeat rewrite calls_bind.
  rewrite !written_all_app.
  assert (Hopt : forall o : option Z,
            written_all (calls (option_match o (print_ptr ptr_text)
                                  (print_none none_text))) =
            match o with Some p => ptr_text p | None => none_text end).
  { intros [p|]; cbn; apply List.app_nil_r. }
  rewrite !Hopt.
  assert (Hsym : written_all
                   (calls (option_match (symbol f)
                             (fun sym : Symbol => for_each (raw sym) fputc)
                             (print_none none_text))) =
                 match symbol f with Some sym => raw sym | None => none_text end).
  { destruct (symbol f) as [sym|]; cbn [option_match].
    - rewrite calls_for_each_fputc. apply written_all_putc.
    - cbn. apply List.app_nil_r. }
  rewrite Hsym.
  cbn [calls fprintf fputs emit snd ret written_all flat_map written].
  rewrite !List.app_nil_r, <- !app_assoc. reflexivity.
Qed.

Section HandlerStates.

Variable STX_ENABLE_PANIC_BACKTRACE : bool.
Variable kThreadIdHash : thread_id -> N.
Variable ptr_text : Z -> text.
Variable none_text : text.
Variable frame_index : nat -> Z.
Variable max_depth : nat.

Let handler :=
  panic_default STX_ENABLE_PANIC_BACKTRACE kThreadIdHash ptr_text none_text
    frame_index max_depth.

Let block_of (self : thread) : text :=
  if STX_ENABLE_PANIC_BACKTRACE
  then backtrace_text ptr_text none_text frame_index max_depth self
  else [].

(** X6: the handler touches the stream only under the mutex: entered while
    the mutex is held, it stops at its first call, the lock, and the process
    state is as it was. *)
Theorem panic_default_waits_for_mutex self info payload location
    (w : world) (owner : thread_id) :
  stderr_lock w = Some owner ->
  aborted w = false ->
  run (tid self) (calls (handler self info payload location)) w = Stuck w.
Proof.
  intros Hl Ha.
  destruct (panic_default_anatomy STX_ENABLE_PANIC_BACKTRACE kThreadIdHash
              ptr_text none_text frame_index max_depth
              self info payload location)
    as (report & bt & Hcalls & _).
  fold handler in Hcalls. rewrite Hcalls.
  cbn [run]. unfold exec. rewrite Ha, Hl. reflexivity.
Qed.

(** X11: the handler can be entered again after it has returned: two
    invocations one after the other both return, with the mutex free and the
    process alive, and the sink holds what it held before followed by the
    two blocks in the order of the calls. *)
Theorem successive_panics_compose
    self1 info1 payload1 location1 self2 info2 payload2 location2 (w : world) :
  stderr_lock w = None ->
  aborted w = false ->
  exists w1 w2,
    run (tid self1) (calls (handler self1 info1 payload1 location1)) w = Returned w1
    /\ run (tid self2) (calls (handler self2 info2 payload2 location2)) w1 = Returned w2
    /\ stderr_lock w2 = None
    /\ aborted w2 = false
    /\ sink_text w2 =
         sink_text w ++
         written_all (calls (handler self1 info1 payload1 location1)) ++
         written_all (calls (handler self2 info2 payload2 location2)).
Proof.
  intros Hl Ha. eexists. eexists.
  split; [apply run_panic_default; assumption|].
  split; [apply run_panic_default; reflexivity|].
  split; [reflexivity|]. split; [reflexivity|].
  unfold handler. rewrite !written_panic_default, !sink_after_handler.
  rewrite <- !app_assoc. reflexivity.
Qed.

End HandlerStates.

Lemma panic_default_waits_for_mutex_witness :
  stderr_lock More.held = Some 9%nat /\ aborted More.held = false /\
  run (tid Sample.t0)
      (calls (panic_default true Sample.hash Sample.ptr Sample.none
                Sample.index Sample.depth
                Sample.t0 (lit "disk full") Sample.no_payload Sample.main_cc))
      More.held = Stuck More.held.
Proof.
  split; [reflexivity|]. split; [reflexivity|].
  apply (panic_default_waits_for_mutex true Sample.hash Sample.ptr Sample.none
           Sample.index Sample.depth
           Sample.t0 (lit "disk full") Sample.no_payload Sample.main_cc
           More.held 9%nat); reflexivity.
Defined.

Lemma successive_panics_compose_witness :
  stderr_lock world0 = None /\ aborted world0 = false /\
  exists w1 w2,
    run (tid Sample.t0) (calls (Sample.handler true Sample.inv0)) world0 = Returned w1
    /\ run (tid Sample.t1) (calls (Sample.handler true Sample.inv1)) w1 = Returned w2
    /\ stderr_lock w2 = None
    /\ aborted w2 = false
    /\ sink_text w2 =
         sink_text world0 ++
         written_all (calls (Sample.handler true Sample.inv0)) ++
         written_all (calls (Sample.handler true Sample.inv1)).
Proof.
  split; [reflexivity|]. split; [reflexivity|].
  apply (successive_panics_compose true Sample.hash Sample.ptr Sample.none
           Sample.index Sample.depth
           Sample.t0 (lit "disk full") Sample.no_payload Sample.main_cc
           Sample.t1 (lit "bad index") Sample.two_bytes Sample.main_cc
           world0); reflexivity.
Defined.

(** * Panicking threads at every moment *)

Section ReachableStates.

Variable STX_ENABLE_PANIC_BACKTRACE : bool.
Variable kThreadIdHash : thread_id -> N.
Variable ptr_text : Z -> text.
Variable none_text : text.
Variable frame_index : nat -> Z.
Variable max_depth : nat.

Let invoke' :=
  invoke STX_ENABLE_PANIC_BACKTRACE kThreadIdHash ptr_text none_text
    frame_index max_depth.
Let spawn' :=
  spawn STX_ENABLE_PANIC_BACKTRACE kThreadIdHash ptr_text none_text
    frame_index max_depth.
Let block' :=
  block STX_ENABLE_PANIC_BACKTRACE kThreadIdHash ptr_text none_text
    frame_index max_depth.
Let body_of (i : invocation) : list call := critical_section (calls (invoke' i)).

Let facts (i : invocation) :
  calls (invoke' i) = waiting (body_of i)
  /\ forallb is_stream_call (body_of i) = true
  /\ written_all (body_of i) = block' i :=
  invoke_waiting STX_ENABLE_PANIC_BACKTRACE kThreadIdHash ptr_text none_text
    frame_index max_depth i.

Lemma bodies_are_stream_calls (invocations : list invocation) :
  Forall (fun b => forallb is_stream_call b = true) (map body_of invocations).
Proof. apply Forall_map, Forall_forall. intros i _. apply (facts i). Qed.

(** Every state the threads can reach is coherent. *)
Lemma reachable_coherent (invocations : list invocation) (sched : list nat)
    (w w' : world) (pool' : list task) :
  stderr_lock w = None ->
  aborted w = false ->
  run_schedule sched (map spawn' invocations, w) = Some (pool', w') ->
  coherent (sink_text w) (map body_of invocations) pool' w'.
Proof.
  intros Hl Ha Hrun.
  eapply coherent_run; [apply bodies_are_stream_calls | | exact Hrun].
  apply coherent_start; auto.
  assert (Hall : forall l, Forall2 (fun (tk : task) b => snd tk = waiting b)
                             (map spawn' l) (map body_of l)).
  { intros l. induction l as [|i l IH]; constructor; [|exact IH].
    unfold spawn', spawn. cbn [snd]. apply (facts i). }
  apply Hall.
Qed.

(** The slot of an invocation: its body, and the text of its block. *)
Lemma slot_of_invocation (invocations : list invocation) (j : nat) :
  (j < List.length (map body_of invocations))%nat ->
  exists i,
    In i invocations
    /\ nth_error invocations j = Some i
    /\ nth j (map body_of invocations) [] = body_of i
    /\ slot_text (map body_of invocations) j = block' i.
Proof.
  rewrite length_map. intros Hj.
  destruct (nth_error invocations j) as [i|] eqn:Hi.
  - exists i. split; [eapply nth_error_In, Hi|]. split; [reflexivity|].
    assert (E : nth j (map body_of invocations) [] = body_of i).
    { apply nth_error_nth. rewrite nth_error_map, Hi. reflexivity. }
    split; [exact E|]. unfold slot_text. rewrite E. apply (facts i).
  - apply nth_error_None in Hi. lia.
Qed.

(** X8: at every moment of every interleaving, finished or not, the sink
    holds what it held before, then complete blocks of invocations, then --
    only while some thread holds the mutex -- the beginning of one more
    block; no byte of one block ever lies inside another. *)
Theorem interleaved_sink_is_blocks_then_prefix
    (invocations : list invocation) (sched : list nat)
    (w w' : world) (pool' : list task) :
  stderr_lock w = None ->
  aborted w = false ->
  run_schedule sched (map spawn' invocations, w) = Some (pool', w') ->
  exists whole partial,
    sink_text w' = sink_text w ++ List.concat whole ++ partial
    /\ incl whole (map block' invocations)
    /\ match stderr_lock w' with
       | None => partial = []
       | Some _ => exists i rest, In i invocations /\ block' i = partial ++ rest
       end.
Proof.
  intros Hl Ha Hrun.
  destruct (reachable_coherent _ _ _ _ _ Hl Ha Hrun)
    as (Ha' & Hlen & fin & Hnd & Hfin & Hlock).
  set (bodies := map body_of invocations) in *.
  assert (Hwhole : incl (map (slot_text bodies) fin) (map block' invocations)).
  { intros b Hb. apply in_map_iff in Hb as (k & <- & Hk).
    destruct (Hfin k Hk) as [t Hkp].
    assert (Hlt : (k < List.length bodies)%nat).
    { rewrite <- Hlen. apply nth_error_Some. congruence. }
    destruct (slot_of_invocation invocations k Hlt) as (i & Hin & _ & _ & Hs).
    fold bodies in Hs. rewrite Hs. now apply in_map. }
  destruct (stderr_lock w') as [o|].
  - destruct Hlock as (j & done & todo & Hj & Hbody & Hsink & _).
    exists (map (slot_text bodies) fin), (written_all done).
    split; [|split; [exact Hwhole|]].
    + rewrite Hsink, flat_map_concat_map, <- app_assoc. reflexivity.
    + assert (Hlt : (j < List.length bodies)%nat).
      { rewrite <- Hlen. apply nth_error_Some. congruence. }
      destruct (slot_of_invocation invocations j Hlt) as (i & Hin & _ & Hb & _).
      fold bodies in Hb. exists i, (written_all todo). split; [exact Hin|].
      rewrite <- (proj2 (proj2 (facts i))), <- Hb, Hbody.
      apply written_all_app.
  - destruct Hlock as (Hsink & _).
    exists (map (slot_text bodies) fin), []. split; [|split; [exact Hwhole|reflexivity]].
    rewrite Hsink, flat_map_concat_map, List.app_nil_r. reflexivity.
Qed.

(** X9: panicking threads never deadlock: in every state they can reach,
    if some thread has calls left, some thread can make its next call. *)
Theorem interleaved_panics_never_deadlock
    (invocations : list invocation) (sched : list nat)
    (w w' : world) (pool' : list task) :
  stderr_lock w = None ->
  aborted w = false ->
  run_schedule sched (map spawn' invocations, w) = Some (pool', w') ->
  ~ finished pool' ->
  exists i cfg, step_at i (pool', w') = Some cfg.
Proof.
  intros Hl Ha Hrun Hnot.
  eapply coherent_progress; [apply bodies_are_stream_calls | | exact Hnot].
  eapply reachable_coherent; eauto.
Qed.

(** X10: mutual exclusion: in every state the threads can reach, at most
    one thread is part-way through the handler. *)
Theorem one_panic_inside_at_a_time
    (invocations : list invocation) (sched : list nat)
    (w w' : world) (pool' : list task) (i k : nat) :
  stderr_lock w = None ->
  aborted w = false ->
  run_schedule sched (map spawn' invocations, w) = Some (pool', w') ->
  midway (map spawn' invocations) pool' i ->
  midway (map spawn' invocations) pool' k ->
  i = k.
Proof.
  intros Hl Ha Hrun Hi Hk.
  destruct (reachable_coherent _ _ _ _ _ Hl Ha Hrun)
    as (Ha' & Hlen & fin & Hnd & Hfin & Hlock).
  set (bodies := map body_of invocations) in *.
  assert (Hout : forall n, midway (map spawn' invocations) pool' n ->
            forall t rest, nth_error pool' n = Some (t, rest) ->
                           ~ outside bodies fin n rest).
  { intros n (t0 & prog & t1 & rest1 & Hstart & Hnow & Hne & Hnp) t rest Hn Ho.
    rewrite Hnow in Hn. inversion Hn; subst t1 rest1. clear Hn.
    destruct Ho as [Hw|[Hw _]]; [|contradiction].
    apply Hnp. rewrite Hw.
    rewrite nth_error_map in Hstart.
    destruct (nth_error invocations n) as [inv|] eqn:Hinv; [|discriminate].
    cbn [option_map] in Hstart. inversion Hstart.
    assert (E : nth n bodies [] = body_of inv).
    { apply nth_error_nth. unfold bodies. rewrite nth_error_map, Hinv. reflexivity. }
    rewrite E. symmetry. apply (facts inv). }
  pose proof (Hout i Hi) as Oi. pose proof (Hout k Hk) as Ok.
  destruct Hi as (ti & pi & ti' & ri & _ & Hni & _).
  destruct Hk as (tk & pk & tk' & rk & _ & Hnk & _).
  destruct (stderr_lock w') as [o|].
  - destruct Hlock as (j & done & todo & Hj & _ & _ & Hothers).
    destruct (Nat.eq_dec i j) as [->|Nij].
    + destruct (Nat.eq_dec k j) as [->|Nkj]; [reflexivity|].
      exfalso. exact (Ok _ _ Hnk (Hothers _ _ _ Nkj Hnk)).
    + exfalso. exact (Oi _ _ Hni (Hothers _ _ _ Nij Hni)).
  - destruct Hlock as (_ & Hothers).
    exfalso. exact (Oi _ _ Hni (Hothers _ _ _ Hni)).
Qed.

End ReachableStates.

Lemma interleaved_sink_is_blocks_then_prefix_witness :
  stderr_lock world0 = None /\ aborted world0 = false /\
  run_schedule More.partial_schedule (Sample.pool, world0) = Some More.partial /\
  exists whole partial,
    sink_text (snd More.partial) = sink_text world0 ++ List.concat whole ++ partial
    /\ incl whole
         (map (block false Sample.hash Sample.ptr Sample.none Sample.index Sample.depth)
              [Sample.inv0; Sample.inv1])
    /\ match stderr_lock (snd More.partial) with
       | None => partial = []
       | Some _ =>
           exists i rest,
             In i [Sample.inv0; Sample.inv1]
             /\ block false Sample.hash Sample.ptr Sample.none Sample.index
                  Sample.depth i = partial ++ rest
       end.
Proof.
  assert (Hrun : run_schedule More.partial_schedule (Sample.pool, world0)
                 = Some (fst More.partial, snd More.partial))
    by (vm_compute; reflexivity).
  split; [reflexivity|]. split; [reflexivity|].
  split; [vm_compute; reflexivity|].
  exact (interleaved_sink_is_blocks_then_prefix false Sample.hash Sample.ptr
           Sample.none Sample.index Sample.depth
           [Sample.inv0; Sample.inv1] More.partial_schedule world0
           (snd More.partial) (fst More.partial) eq_refl eq_refl Hrun).
Defined.

Lemma interleaved_panics_never_deadlock_witness :
  stderr_lock world0 = None /\ aborted world0 = false /\
  run_schedule More.partial_schedule (Sample.pool, world0) = Some More.partial /\
  ~ finished (fst More.partial) /\
  exists i cfg, step_at i (fst More.partial, snd More.partial) = Some cfg.
Proof.
  assert (Hrun : run_schedule More.partial_schedule (Sample.pool, world0)
                 = Some (fst More.partial, snd More.partial))
    by (vm_compute; reflexivity).
  assert (Hnot : ~ finished (fst More.partial)).
  { intros H. apply Forall_inv in H. vm_compute in H. discriminate H. }
  split; [reflexivity|]. split; [reflexivity|].
  split; [vm_compute; reflexivity|]. split; [exact Hnot|].
  exact (interleaved_panics_never_deadlock false Sample.hash Sample.ptr
           Sample.none Sample.index Sample.depth
           [Sample.inv0; Sample.inv1] More.partial_schedule world0
           (snd More.partial) (fst More.partial) eq_refl eq_refl Hrun Hnot).
Defined.

Lemma one_panic_inside_at_a_time_witness :
  midway Sample.pool (fst More.partial) 0 /\ 0%nat = 0%nat.
Proof.
  assert (Hrun : run_schedule More.partial_schedule (Sample.pool, world0)
                 = Some (fst More.partial, snd More.partial))
    by (vm_compute; reflexivity).
  assert (Hmid : midway Sample.pool (fst More.partial) 0).
  { eexists. eexists. eexists. eexists.
    split; [vm_compute; reflexivity|]. split; [vm_compute; reflexivity|].
    split; vm_compute; discriminate. }
  split; [exact Hmid|].
  exact (one_panic_inside_at_a_time false Sample.hash Sample.ptr
           Sample.none Sample.index Sample.depth
           [Sample.inv0; Sample.inv1] More.partial_schedule world0
           (snd More.partial) (fst More.partial) 0 0 eq_refl eq_refl Hrun Hmid Hmid).
Defined.
